(** * darkflow-front: the /recognize handler of [main.go]

    A shallow embedding of the HTTP front-end: the request handler
    [recognize], the fetcher [wget], the response helpers [jsonError] and
    [jsonResponse], and the identifier generator [generateID], together
    with models of the library calls they make (path joining, JSON
    decoding, the file system, the response writer), and the two routes
    that [main] registers.

    Go strings and byte slices are sequences of bytes: they are [string]
    here (one [ascii] per byte).  Go's [int] is [Z] where arithmetic is
    done on it and [nat] where it only counts positions of a slice.

    What is outside the program (the random source, the network, the
    recognition service, the client's connection, failures of the
    operating system) is an [Env] of functions of the trace of calls made
    so far, so that every statement holds for all behaviours of the
    outside.  The file system is a finite map from paths to nodes.

    Left out of the model: the output of [log.Printf]; the deferred
    [Close] calls; how the encoder writes a JSON string (the model stops
    at the value handed to it); the decoder's limit on nesting; the panic
    of [WriteHeader] on a code outside 100..999; bounds on memory; of
    [main], the parsing of the flags, the making of the two roots and the
    server loop; of the file server, what it does with the file it has
    opened. *)

From Stdlib Require Import ZArith NArith Ascii String DecimalString Decimal DecimalNat.
From stdpp Require Import base option list strings gmap sorting.

Local Open Scope Z_scope.

(** ** Bytes and strings *)

Definition byte_val (c : ascii) : N := N_of_ascii c.

Definition byte_in (lo hi : N) (c : ascii) : bool :=
  ((lo <=? byte_val c) && (byte_val c <=? hi))%N.

Fixpoint str_all (p : ascii → bool) (s : string) : bool :=
  match s with
  | EmptyString => true
  | String c s' => p c && str_all p s'
  end.

Fixpoint str_take (n : nat) (s : string) : string :=
  match n, s with
  | S n', String c s' => String c (str_take n' s')
  | _, _ => EmptyString
  end.

Fixpoint strip_prefix (p s : string) : option string :=
  match p, s with
  | EmptyString, _ => Some s
  | String a p', String b s' => if decide (a = b) then strip_prefix p' s' else None
  | String _ _, EmptyString => None
  end.

(** ** encoding/hex *)

Definition hextable : string := "0123456789abcdef".

Definition hexdigit (n : N) : ascii :=
  match String.get (N.to_nat n) hextable with
  | Some c => c
  | None => "0"%char
  end.

(** [hex.EncodeToString]: two digits per byte, [hextable[v>>4]] and then
    [hextable[v&0x0f]]. *)
Fixpoint EncodeToString (src : list Byte.byte) : string :=
  match src with
  | [] => EmptyString
  | v :: rest =>
      String (hexdigit (N.shiftr (Byte.to_N v) 4))
        (String (hexdigit (N.land (Byte.to_N v) 15)) (EncodeToString rest))
  end.

Definition is_lower_hex (c : ascii) : bool :=
  byte_in 48 57 c || byte_in 97 102 c.

(** ** Buffers

    [make([]byte, n)] is a zeroed buffer.  A read of [data] into [buf]
    stores at most [length buf] bytes; the rest of the buffer keeps what
    it held. *)

Definition make_bytes (n : Z) : list Byte.byte := replicate (Z.to_nat n) Byte.x00.

Definition fill (buf data : list Byte.byte) : list Byte.byte :=
  take (length buf) data ++ drop (length data) buf.

(** ** fmt.Sprintf("%d.jpg", i) for a slice index [i] *)

Definition itoa (i : nat) : string := NilEmpty.string_of_uint (Nat.to_uint i).

Definition jpg_name (i : nat) : string := itoa i +:+ ".jpg".


(** ** path/filepath on Unix

    [segments] is [strings.Split(path, "/")].  [Clean] follows the loop of
    [filepath.Clean]: empty and [.] elements are dropped, a [..] element
    removes the element before it when there is one to remove, is dropped
    at the root, and is kept in front of a relative path.  [out] is the
    output written so far, last element first. *)

Definition is_slash (c : ascii) : bool := bool_decide (c = "/"%char).

Fixpoint segments (path : string) : list string :=
  match path with
  | EmptyString => [EmptyString]
  | String c rest =>
      if is_slash c then EmptyString :: segments rest
      else match segments rest with
           | seg :: more => String c seg :: more
           | [] => [String c EmptyString]
           end
  end.

Definition rooted (path : string) : bool :=
  match path with
  | String c _ => is_slash c
  | EmptyString => false
  end.

Definition clean_step (root : bool) (out : list string) (seg : string) : list string :=
  if bool_decide (seg = "") || bool_decide (seg = ".") then out
  else if bool_decide (seg = "..") then
    match out with
    | top :: below => if bool_decide (top = "..") then seg :: out else below
    | [] => if root then [] else [seg]
    end
  else seg :: out.

Fixpoint join_slash (elems : list string) : string :=
  match elems with
  | [] => ""
  | [e] => e
  | e :: more => e +:+ "/" +:+ join_slash more
  end.

Definition render (root : bool) (out : list string) : string :=
  let body := join_slash (rev out) in
  if root then "/" +:+ body
  else if bool_decide (body = "") then "." else body.

Definition Clean (path : string) : string :=
  if bool_decide (path = "") then "."
  else render (rooted path) (fold_left (clean_step (rooted path)) (segments path) []).

(** [filepath.Join]: leading empty elements are skipped, the rest is joined
    with [/] and cleaned; no non-empty element gives the empty string. *)
Fixpoint Join (elem : list string) : string :=
  match elem with
  | [] => ""
  | e :: more => if bool_decide (e = "") then Join more else Clean (join_slash elem)
  end.

(** A name a directory entry can have: not empty, no [/], neither [.] nor
    [..]. *)
Definition entry_name_ok (name : string) : bool :=
  negb (bool_decide (name = "")) && negb (bool_decide (name = "."))
  && negb (bool_decide (name = "..")) && str_all (λ c, negb (is_slash c)) name.


(** ** encoding/json: values

    A JSON text as a tree.  A string is held as the bytes of the Go
    string it decodes to, a number as its literal. *)

#[local] Unset Elimination Schemes.

Inductive json : Type :=
| JNull
| JBool (b : bool)
| JNumber (lit : string)
| JString (s : string)
| JArray (elems : list json)
| JObject (members : list (string * json)).

#[local] Set Elimination Schemes.

Definition chr (n : N) : ascii := ascii_of_N n.

(** The double quote. *)
Definition dquote : ascii := chr 34.

Definition is_space (c : ascii) : bool :=
  bool_decide (c = " "%char) || bool_decide (c = chr 9)
  || bool_decide (c = chr 10) || bool_decide (c = chr 13).

Fixpoint skip_space (s : string) : string :=
  match s with
  | String c rest => if is_space c then skip_space rest else s
  | EmptyString => s
  end.

Definition is_digit (c : ascii) : bool := byte_in 48 57 c.

Definition hexval (c : ascii) : option N :=
  if byte_in 48 57 c then Some (byte_val c - 48)%N
  else if byte_in 97 102 c then Some (byte_val c - 87)%N
  else if byte_in 65 70 c then Some (byte_val c - 55)%N
  else None.

(** [getu4]: the value of four hexadecimal digits. *)
Definition getu4 (a b c d : ascii) : option N :=
  match hexval a, hexval b, hexval c, hexval d with
  | Some x, Some y, Some z, Some w => Some (((x * 16 + y) * 16 + z) * 16 + w)%N
  | _, _, _, _ => None
  end.

(** *** String literals

    A literal is scanned into units: a byte of the text (an escape such
    as [\n] gives the byte it stands for) or the 16-bit value of a
    [\uXXXX] escape.  The scanner refuses control characters and unknown
    escapes, as [scanner.go] does. *)

Inductive strunit : Type :=
| UByte (c : ascii)
| UEsc (r : N).

Definition simple_escape (c : ascii) : option ascii :=
  if bool_decide (c = dquote) then Some c
  else if bool_decide (c = "\"%char) then Some c
  else if bool_decide (c = "/"%char) then Some c
  else if bool_decide (c = "b"%char) then Some (chr 8)
  else if bool_decide (c = "f"%char) then Some (chr 12)
  else if bool_decide (c = "n"%char) then Some (chr 10)
  else if bool_decide (c = "r"%char) then Some (chr 13)
  else if bool_decide (c = "t"%char) then Some (chr 9)
  else None.

(** The text after an opening quote, up to and including the closing one. *)
Fixpoint scan_string (s : string) : option (list strunit * string) :=
  match s with
  | EmptyString => None
  | String c rest =>
      if bool_decide (c = dquote) then Some ([], rest)
      else if bool_decide (c = "\"%char) then
        match rest with
        | String e rest1 =>
            if bool_decide (e = "u"%char) then
              match rest1 with
              | String h1 (String h2 (String h3 (String h4 rest2))) =>
                  match getu4 h1 h2 h3 h4, scan_string rest2 with
                  | Some r, Some (us, out) => Some (UEsc r :: us, out)
                  | _, _ => None
                  end
              | _ => None
              end
            else
              match simple_escape e, scan_string rest1 with
              | Some b, Some (us, out) => Some (UByte b :: us, out)
              | _, _ => None
              end
        | EmptyString => None
        end
      else if (byte_val c <? 32)%N then None
      else
        match scan_string rest with
        | Some (us, out) => Some (UByte c :: us, out)
        | None => None
        end
  end.

(** [utf8.EncodeRune]; a surrogate half or a value above U+10FFFF is
    written as U+FFFD. *)
Definition utf8_bytes (r : N) : string :=
  let cont (x : N) := chr (N.lor 128 (N.land x 63)) in
  if (r <? 128)%N then String (chr r) ""
  else if (r <? 2048)%N then
    String (chr (N.lor 192 (N.shiftr r 6))) (String (cont r) "")
  else if ((55296 <=? r) && (r <=? 57343))%N || (1114111 <? r)%N then
    String (chr 239) (String (chr 191) (String (chr 189) ""))
  else if (r <? 65536)%N then
    String (chr (N.lor 224 (N.shiftr r 12)))
      (String (cont (N.shiftr r 6)) (String (cont r) ""))
  else
    String (chr (N.lor 240 (N.shiftr r 18)))
      (String (cont (N.shiftr r 12))
         (String (cont (N.shiftr r 6)) (String (cont r) ""))).

Definition replacement : string := utf8_bytes 65533.

Definition unit_in (lo hi : N) (u : option strunit) : bool :=
  match u with
  | Some (UByte c) => byte_in lo hi c
  | _ => false
  end.

(** The number of continuation bytes that follow the lead byte [c] in a
    well-formed UTF-8 sequence starting here ([utf8.DecodeRune]'s table of
    first bytes and accepted ranges), or [None] when the sequence is ill
    formed. *)
Definition utf8_tail (c : ascii) (rest : list strunit) : option nat :=
  let snd_in (lo hi : N) := unit_in lo hi (rest !! 0%nat) in
  let third := unit_in 128%N 191%N (rest !! 1%nat) in
  let fourth := unit_in 128%N 191%N (rest !! 2%nat) in
  let two (lo hi : N) := if snd_in lo hi then Some 1%nat else None in
  let three (lo hi : N) := if snd_in lo hi && third then Some 2%nat else None in
  let four (lo hi : N) := if snd_in lo hi && third && fourth then Some 3%nat else None in
  if byte_in 194 223 c then two 128%N 191%N
  else if byte_in 224 224 c then three 160%N 191%N
  else if byte_in 225 236 c then three 128%N 191%N
  else if byte_in 237 237 c then three 128%N 159%N
  else if byte_in 238 239 c then three 128%N 191%N
  else if byte_in 240 240 c then four 144%N 191%N
  else if byte_in 241 243 c then four 128%N 191%N
  else if byte_in 244 244 c then four 128%N 143%N
  else None.

(** [unquote]: the bytes a literal stands for.  [pending] continuation
    bytes of a sequence already checked are copied as they are; an ill
    formed byte becomes U+FFFD; a [\u] escape of a surrogate half is
    combined with a following low half or becomes U+FFFD. *)
Fixpoint unquote_units (pending : nat) (us : list strunit) : string :=
  match us with
  | [] => ""
  | UByte c :: rest =>
      match pending with
      | S k => String c (unquote_units k rest)
      | O =>
          if (byte_val c <? 128)%N then String c (unquote_units 0 rest)
          else match utf8_tail c rest with
               | Some k => String c (unquote_units k rest)
               | None => replacement +:+ unquote_units 0 rest
               end
      end
  | UEsc r :: rest =>
      if ((55296 <=? r) && (r <? 56320))%N then
        match rest with
        | UEsc r2 :: rest2 =>
            if ((56320 <=? r2) && (r2 <? 57344))%N then
              utf8_bytes (N.shiftl (r - 55296) 10 + (r2 - 56320) + 65536)
                +:+ unquote_units 0 rest2
            else replacement +:+ unquote_units 0 rest
        | _ => replacement +:+ unquote_units 0 rest
        end
      else utf8_bytes r +:+ unquote_units 0 rest
  end.

Definition parse_string (s : string) : option (string * string) :=
  match scan_string s with
  | Some (us, rest) => Some (unquote_units 0 us, rest)
  | None => None
  end.

(** *** Numbers *)

Fixpoint span_digits (s : string) : string * string :=
  match s with
  | String c rest =>
      if is_digit c then let '(ds, out) := span_digits rest in (String c ds, out)
      else ("", s)
  | EmptyString => ("", s)
  end.

(** One or more digits. *)
Definition digits1 (s : string) : option (string * string) :=
  match span_digits s with
  | (EmptyString, _) => None
  | (ds, out) => Some (ds, out)
  end.

Definition scan_int (s : string) : option (string * string) :=
  match s with
  | String c rest =>
      if bool_decide (c = "0"%char) then Some ("0", rest)
      else if is_digit c then
        let '(ds, out) := span_digits rest in Some (String c ds, out)
      else None
  | EmptyString => None
  end.

Definition scan_frac (s : string) : option (string * string) :=
  match s with
  | String c rest =>
      if bool_decide (c = "."%char) then
        match digits1 rest with
        | Some (ds, out) => Some (String c ds, out)
        | None => None
        end
      else Some ("", s)
  | EmptyString => Some ("", s)
  end.

Definition scan_exp (s : string) : option (string * string) :=
  match s with
  | String c rest =>
      if bool_decide (c = "e"%char) || bool_decide (c = "E"%char) then
        let '(sign, rest1) :=
          match rest with
          | String g rest' =>
              if bool_decide (g = "+"%char) || bool_decide (g = "-"%char)
              then (String g "", rest') else ("", rest)
          | EmptyString => ("", rest)
          end in
        match digits1 rest1 with
        | Some (ds, out) => Some (String c (sign +:+ ds), out)
        | None => None
        end
      else Some ("", s)
  | EmptyString => Some ("", s)
  end.

Definition scan_number (s : string) : option (string * string) :=
  let '(sign, s1) :=
    match s with
    | String c rest => if bool_decide (c = "-"%char) then ("-", rest) else ("", s)
    | EmptyString => ("", s)
    end in
  match scan_int s1 with
  | Some (i, s2) =>
      match scan_frac s2 with
      | Some (f, s3) =>
          match scan_exp s3 with
          | Some (e, s4) => Some (sign +:+ i +:+ f +:+ e, s4)
          | None => None
          end
      | None => None
      end
  | None => None
  end.

(** *** Values

    [parse_value] reads one value, after optional white space, and returns
    it with the text that follows it.  The recursion is on [fuel]; twice
    the length of the text (plus two) is enough, since every second call
    has consumed a byte. *)

Fixpoint parse_value (fuel : nat) (s : string) : option (json * string) :=
  match fuel with
  | O => None
  | S fuel' =>
      match skip_space s with
      | EmptyString => None
      | String c rest =>
          if bool_decide (c = "{"%char) then
            match skip_space rest with
            | String c1 rest1 =>
                if bool_decide (c1 = "}"%char) then Some (JObject [], rest1)
                else match parse_members fuel' (skip_space rest) with
                     | Some (ms, out) => Some (JObject ms, out)
                     | None => None
                     end
            | EmptyString => None
            end
          else if bool_decide (c = "["%char) then
            match skip_space rest with
            | String c1 rest1 =>
                if bool_decide (c1 = "]"%char) then Some (JArray [], rest1)
                else match parse_elements fuel' rest with
                     | Some (vs, out) => Some (JArray vs, out)
                     | None => None
                     end
            | EmptyString => None
            end
          else if bool_decide (c = dquote) then
            match parse_string rest with
            | Some (str, out) => Some (JString str, out)
            | None => None
            end
          else if bool_decide (c = "t"%char) then
            option_map (pair (JBool true)) (strip_prefix "rue" rest)
          else if bool_decide (c = "f"%char) then
            option_map (pair (JBool false)) (strip_prefix "alse" rest)
          else if bool_decide (c = "n"%char) then
            option_map (pair JNull) (strip_prefix "ull" rest)
          else
            match scan_number (String c rest) with
            | Some (lit, out) => Some (JNumber lit, out)
            | None => None
            end
      end
  end

(** The elements of an array after [[], up to and including []]. *)
with parse_elements (fuel : nat) (s : string) : option (list json * string) :=
  match fuel with
  | O => None
  | S fuel' =>
      match parse_value fuel' s with
      | Some (v, rest) =>
          match skip_space rest with
          | String c rest1 =>
              if bool_decide (c = ","%char) then
                match parse_elements fuel' rest1 with
                | Some (vs, out) => Some (v :: vs, out)
                | None => None
                end
              else if bool_decide (c = "]"%char) then Some ([v], rest1)
              else None
          | EmptyString => None
          end
      | None => None
      end
  end

(** The members of an object, from the opening quote of a key up to and
    including [}]. *)
with parse_members (fuel : nat) (s : string) : option (list (string * json) * string) :=
  match fuel with
  | O => None
  | S fuel' =>
      match s with
      | String q rest =>
          if bool_decide (q = dquote) then
            match parse_string rest with
            | Some (key, rest1) =>
                match skip_space rest1 with
                | String c rest2 =>
                    if bool_decide (c = ":"%char) then
                      match parse_value fuel' rest2 with
                      | Some (v, rest3) =>
                          match skip_space rest3 with
                          | String d rest4 =>
                              if bool_decide (d = ","%char) then
                                match parse_members fuel' (skip_space rest4) with
                                | Some (ms, out) => Some ((key, v) :: ms, out)
                                | None => None
                                end
                              else if bool_decide (d = "}"%char) then Some ([(key, v)], rest4)
                              else None
                          | EmptyString => None
                          end
                      | None => None
                      end
                    else None
                | EmptyString => None
                end
            | None => None
            end
          else None
      | EmptyString => None
      end
  end.

Definition parse_fuel (s : string) : nat := 2 * String.length s + 2.

(** The first value of a text and what follows it: what [Decoder.readValue]
    hands to the unmarshaller. *)
Definition first_value (s : string) : option (json * string) :=
  parse_value (parse_fuel s) s.

(** [json.Valid]: the whole text is one value, white space around it. *)
Definition Valid (data : string) : bool :=
  match first_value data with
  | Some (_, rest) => bool_decide (skip_space rest = "")
  | None => false
  end.

(** ** Errors

    A Go [error] is represented by its message.  The handler builds its own
    messages with [fmt.Errorf]; the texts given here to errors that come
    out of a library are representative, not the library's wording. *)

Abbreviation error := string (only parsing).

(** [%v] of an error value; a nil error prints as [<nil>]. *)
Definition fmt_v (err : option error) : string :=
  match err with
  | Some e => e
  | None => "<nil>"
  end.

Definition first_error (e1 e2 : option error) : option error :=
  match e1 with
  | Some _ => e1
  | None => e2
  end.

(** ** The request types of [main.go] *)

Record recognizeRequest : Type := { ImageURLs : list string }.

Record darkflowRequest : Type := { InputDir : string; OutputDir : string }.

(** *** Unmarshalling into [recognizeRequest]

    The one field is tagged [image_urls].  A key selects it when it is
    equal to the tag or equal under the decoder's case folding: letters
    match without regard to case, and the long s (U+017F) and the Kelvin
    sign (U+212A) in a key match [s] and [k]. *)

Definition long_s : string := utf8_bytes 383.
Definition kelvin : string := utf8_bytes 8490.

Definition is_ess (c : ascii) : bool := bool_decide (c = "s"%char) || bool_decide (c = "S"%char).
Definition is_kay (c : ascii) : bool := bool_decide (c = "k"%char) || bool_decide (c = "K"%char).

Fixpoint equalFold (name key : string) : bool :=
  match name, key with
  | EmptyString, EmptyString => true
  | EmptyString, String _ _ => false
  | String _ _, EmptyString => false
  | String sb name', String tb key' =>
      if (byte_val tb <? 128)%N then
        (bool_decide (sb = tb)
         || (let up := N.land (byte_val sb) 223 in
             (65 <=? up)%N && (up <=? 90)%N && (up =? N.land (byte_val tb) 223)%N))
        && equalFold name' key'
      else if is_ess sb then
        match strip_prefix long_s key with
        | Some key'' => equalFold name' key''
        | None => false
        end
      else if is_kay sb then
        match strip_prefix kelvin key with
        | Some key'' => equalFold name' key''
        | None => false
        end
      else false
  end.

(** An element of the array, stored into the slot that held [old]: a
    string is stored, [null] leaves the slot, anything else is a type
    error and leaves the slot. *)
Definition decode_elem (old : string) (v : json) : string * option error :=
  match v with
  | JString s => (s, None)
  | JNull => (old, None)
  | _ => (old, Some "json: cannot unmarshal value into Go struct field recognizeRequest.image_urls of type string")
  end.

Fixpoint decode_elems (old : list string) (vs : list json) : list string * option error :=
  match vs with
  | [] => ([], None)
  | v :: vs' =>
      let '(x, e1) := decode_elem (hd "" old) v in
      let '(xs, e2) := decode_elems (tl old) vs' in
      (x :: xs, first_error e1 e2)
  end.

(** A value for the field: [null] makes the slice nil, an array replaces
    the slice, anything else is a type error and leaves it. *)
Definition decode_field (old : list string) (v : json) : list string * option error :=
  match v with
  | JNull => ([], None)
  | JArray vs => decode_elems old vs
  | _ => (old, Some "json: cannot unmarshal value into Go struct field recognizeRequest.image_urls of type []string")
  end.

(** The members of an object in their order; unknown keys are skipped, a
    type error does not stop the decoding and the first one is reported. *)
Fixpoint decode_members (req : recognizeRequest) (ms : list (string * json))
  : recognizeRequest * option error :=
  match ms with
  | [] => (req, None)
  | (key, v) :: ms' =>
      if equalFold "image_urls" key then
        let '(urls, e1) := decode_field (ImageURLs req) v in
        let '(req', e2) := decode_members {| ImageURLs := urls |} ms' in
        (req', first_error e1 e2)
      else decode_members req ms'
  end.

Definition unmarshal (req : recognizeRequest) (v : json) : recognizeRequest * option error :=
  match v with
  | JNull => (req, None)
  | JObject ms => decode_members req ms
  | _ => (req, Some "json: cannot unmarshal value into Go value of type main.recognizeRequest")
  end.

(** [json.NewDecoder(r.Body).Decode(&req)] on a fresh [req]: the first
    value of the body is read and unmarshalled; what follows that value
    in the body is not looked at. *)
Definition Decode (body : string) : recognizeRequest * option error :=
  let req := {| ImageURLs := [] |} in
  if bool_decide (skip_space body = "") then (req, Some "EOF")
  else match first_value body with
       | Some (v, _) => unmarshal req v
       | None => (req, Some "invalid character or unexpected end of JSON input")
       end.

(** *** Marshalling the three payloads of [main.go]

    The tree of a payload holds the Go strings as they are handed to the
    encoder; how the encoder writes a string (escapes, U+FFFD for bytes
    that are not UTF-8) is not part of the model. *)

Definition marshal_darkflowRequest (d : darkflowRequest) : json :=
  JObject [("input_dir", JString (InputDir d)); ("output_dir", JString (OutputDir d))].

(** A non-nil [[]string]. *)
Definition marshal_strings (l : list string) : json := JArray (map JString l).

(** [map[string]string{"reason": msg}]. *)
Definition marshal_reason (msg : string) : json := JObject [("reason", JString msg)].

(** ** The world of a request

    The file system maps a path to what is there.  The trace lists the
    calls the handler made outside the program, with what they returned. *)

Inductive node : Type :=
| Dir
| File (content : string).

Record Response : Type := {
  StatusCode : Z;
  Body : string;                (* the bytes the body delivers *)
  BodyErr : option error        (* and the error it ends with, if any *)
}.

Inductive Event : Type :=
| EvRand (n : nat) (data : list Byte.byte)
| EvMkdir (name : string) (err : option error)
| EvGet (url : string) (res : Response + error)
| EvCreate (name : string) (err : option error)
| EvCopy (name : string) (written : string) (err : option error)
| EvPost (url contentType : string) (body : json) (res : Z + error)
| EvReadDir (name : string) (res : list string + error)
| EvWrite (payload : json) (err : option error).

Inductive FsOp : Type :=
| OpMkdir (name : string)
| OpCreate (name : string)
| OpReadDir (name : string).

(** [http.ResponseWriter]: the header map the handler edits, the status
    line once it is sent together with the header as it was then, and the
    payloads that [w.Write] accepted. *)
Record ResponseWriter : Type := {
  rw_header : gmap string string;
  rw_status : option Z;
  rw_sent : gmap string string;
  rw_body : list json
}.

Record World : Type := {
  fs : gmap string node;
  rw : ResponseWriter;
  trace : list Event
}.

(** What is outside the program and answers its calls.  Every answer may
    depend on all that happened before (the trace). *)
Record Env : Type := {
  (* crypto/rand: the bytes delivered to a buffer of [n] bytes *)
  rand_source : list Event → nat → list Byte.byte;
  (* the insecure client's GET *)
  http_get : list Event → string → Response + error;
  (* a file operation refused by the system for a reason the file system
     map does not show (permissions, a missing parent, a full disk) *)
  os_fault : list Event → FsOp → option error;
  (* a write to a file that stops with an error after some bytes *)
  write_fault : list Event → string → option (nat * error);
  (* the recognition service: its answer to a POST and the file system it
     leaves *)
  darkflow : list Event → gmap string node → string → string → json
             → (Z + error) * gmap string node;
  (* a write to the client's connection *)
  client_write : list Event → json → option error
}.

(** The three flags of [readFlags]. *)
Record Config : Type := {
  inputDir : string;
  outputDir : string;
  darkflowURL : string
}.

(** [*http.Request]: the method and the bytes of the body. *)
Record Request : Type := {
  Method : string;
  ReqBody : string
}.

Definition MethodOptions : string := "OPTIONS".
Definition StatusOK : Z := 200.
Definition StatusBadRequest : Z := 400.
Definition StatusInternalServerError : Z := 500.

(** *** The state monad of a handler *)

Definition M (A : Type) : Type := World → A * World.

#[global] Instance M_ret : MRet M := λ A a σ, (a, σ).
#[global] Instance M_bind : MBind M := λ A B f m σ, let '(a, σ') := m σ in f a σ'.

Definition emit (ev : Event) : M unit :=
  λ σ, (tt, {| fs := fs σ; rw := rw σ; trace := trace σ ++ [ev] |}).

Definition set_fs (f : gmap string node) : M unit :=
  λ σ, (tt, {| fs := f; rw := rw σ; trace := trace σ |}).

Definition set_rw (w : ResponseWriter) : M unit :=
  λ σ, (tt, {| fs := fs σ; rw := w; trace := trace σ |}).

Definition get_world : M World := λ σ, (σ, σ).

(** *** The file system calls *)

Definition is_dir (f : gmap string node) (name : string) : bool :=
  match f !! name with
  | Some Dir => true
  | _ => false
  end.

(** [os.Mkdir]: refuses a name that exists. *)
Definition Mkdir (env : Env) (name : string) : M (option error) :=
  σ ← get_world;
  let err :=
    match os_fault env (trace σ) (OpMkdir name) with
    | Some e => Some e
    | None => if bool_decide (is_Some (fs σ !! name))
              then Some ("mkdir " +:+ name +:+ ": file exists") else None
    end in
  (if err is None then set_fs (<[name := Dir]> (fs σ)) else mret tt);;
  emit (EvMkdir name err);;
  mret err.

(** [os.Create]: creates the file or truncates it; refuses a directory. *)
Definition Create (env : Env) (name : string) : M (option error) :=
  σ ← get_world;
  let err :=
    match os_fault env (trace σ) (OpCreate name) with
    | Some e => Some e
    | None => if is_dir (fs σ) name
              then Some ("open " +:+ name +:+ ": is a directory") else None
    end in
  (if err is None then set_fs (<[name := File ""]> (fs σ)) else mret tt);;
  emit (EvCreate name err);;
  mret err.

(** [io.Copy(file, response.Body)] for the file just created at [name]:
    the bytes of the body are written until the body ends or fails, or a
    write fails. *)
Definition Copy (env : Env) (name : string) (response : Response) : M (option error) :=
  σ ← get_world;
  let '(written, err) :=
    match write_fault env (trace σ) name with
    | Some (n, e) => (str_take n (Body response), Some e)
    | None => (Body response, BodyErr response)
    end in
  set_fs (<[name := File written]> (fs σ));;
  emit (EvCopy name written err);;
  mret err.

(** The names directly inside [dir]. *)
Definition entry_of (dir path : string) : option string :=
  match strip_prefix (dir +:+ "/") path with
  | Some name => if entry_name_ok name then Some name else None
  | None => None
  end.

(** [ioutil.ReadDir] lists the entries sorted by name. *)
Definition list_dir (f : gmap string node) (dir : string) : list string :=
  merge_sort String.le (omap (entry_of dir) (map fst (map_to_list f))).

Definition ReadDir (env : Env) (name : string) : M (list string + error) :=
  σ ← get_world;
  let res :=
    match os_fault env (trace σ) (OpReadDir name) with
    | Some e => inr e
    | None => if is_dir (fs σ) name
              then inl (list_dir (fs σ) name)
              else inr ("open " +:+ name +:+ ": no such directory")
    end in
  emit (EvReadDir name res);;
  mret res.

(** *** The network calls *)

Definition Get (env : Env) (url : string) : M (Response + error) :=
  σ ← get_world;
  let res := http_get env (trace σ) url in
  emit (EvGet url res);;
  mret res.

(** [http.Post]; the service may change the file system while it
    answers. *)
Definition Post (env : Env) (url contentType : string) (body : json) : M (Z + error) :=
  σ ← get_world;
  let '(res, f) := darkflow env (trace σ) (fs σ) url contentType body in
  set_fs f;;
  emit (EvPost url contentType body res);;
  mret res.

(** [rand.Read(buf)]: the buffer after the read. *)
Definition rand_Read (env : Env) (buf : list Byte.byte) : M (list Byte.byte) :=
  σ ← get_world;
  let data := rand_source env (trace σ) (length buf) in
  emit (EvRand (length buf) data);;
  mret (fill buf data).

(** *** The response writer *)

(** [w.Header().Set(key, value)]. *)
Definition Header_Set (key value : string) : M unit :=
  σ ← get_world;
  let w := rw σ in
  set_rw {| rw_header := <[key := value]> (rw_header w); rw_status := rw_status w;
            rw_sent := rw_sent w; rw_body := rw_body w |}.

(** [w.WriteHeader(code)]: the first call sends the status line and the
    header map as it is; a later call changes nothing.  (The server
    panics on a code outside 100..999; the model has no such codes in
    mind.) *)
Definition WriteHeader (code : Z) : M unit :=
  σ ← get_world;
  let w := rw σ in
  match rw_status w with
  | Some _ => mret tt
  | None => set_rw {| rw_header := rw_header w; rw_status := Some code;
                      rw_sent := rw_header w; rw_body := rw_body w |}
  end.

(** A response with a status of class 1xx, or 204, or 304 has no body:
    [w.Write] refuses the bytes with [ErrBodyNotAllowed]. *)
Definition bodyAllowedForStatus (status : Z) : bool :=
  if (100 <=? status) && (status <=? 199) then false
  else if status =? 204 then false
  else if status =? 304 then false
  else true.

Definition ErrBodyNotAllowed : string :=
  "http: request method or response status code does not allow body".

(** [w.Write] of an encoded payload, the status line being sent: the
    result of the write. *)
Definition write_result (env : Env) (status : Z) (tr : list Event) (payload : json)
  : option error :=
  if bodyAllowedForStatus status then client_write env tr payload
  else Some ErrBodyNotAllowed.

(** [json.NewEncoder(w).Encode(payload)]: the payload is marshalled and
    handed to [w.Write] in one piece.  A write before any [WriteHeader]
    sends status 200 first. *)
Definition Encode (env : Env) (payload : json) : M (option error) :=
  WriteHeader StatusOK;;
  σ ← get_world;
  let w := rw σ in
  let status := match rw_status w with Some code => code | None => StatusOK end in
  let err := write_result env status (trace σ) payload in
  (if err is None
   then set_rw {| rw_header := rw_header w; rw_status := rw_status w;
                  rw_sent := rw_sent w; rw_body := rw_body w ++ [payload] |}
   else mret tt);;
  emit (EvWrite payload err);;
  mret err.

(** ** main.go

    The calls to [log.Printf] only print and are left out; so are the
    deferred [Close] calls, whose results the source discards. *)

(** [generateID(len)].  Go's [/] on [int] truncates towards zero
    ([Z.quot]).  Both results of [rand.Read] are discarded by the source.
    A negative [len] makes the Go function panic: the model is meant for
    [0 <= len], and it puts no bound on the size of a buffer. *)
Definition generateID (env : Env) (len : Z) : M string :=
  buf ← rand_Read env (make_bytes ((len - 1) ÷ 2 + 1));
  mret (str_take (Z.to_nat len) (EncodeToString buf)).

Definition setupResponse : M unit :=
  Header_Set "Access-Control-Allow-Origin" "*";;
  Header_Set "Access-Control-Allow-Methods" "POST, GET, OPTIONS, PUT, DELETE";;
  Header_Set "Access-Control-Allow-Headers"
    "Accept, Content-Type, Content-Length, Accept-Encoding, X-CSRF-Token, Authorization".

Definition jsonResponse (env : Env) (status : Z) (payload : json) : M unit :=
  setupResponse;;
  WriteHeader status;;
  err ← Encode env payload;
  match err with
  | Some _ => WriteHeader StatusInternalServerError
  | None => Header_Set "Content-Type" "application/json"
  end.

Definition jsonError (env : Env) (status : Z) (err : error) : M unit :=
  jsonResponse env status (marshal_reason err).

Definition wget (env : Env) (from to : string) : M (option error) :=
  res ← Get env from;
  match res with
  | inr e => mret (Some ("could not wget image: " +:+ e))
  | inl response =>
      err ← Create env to;
      match err with
      | Some e => mret (Some e)
      | None => Copy env to response
      end
  end.

(** The loop [for i, img := range req.ImageURLs] of [recognize], from
    position [i] on; it stops at the first error and hands it back. *)
Fixpoint download (env : Env) (input : string) (urls : list string) (i : nat)
  : M (option error) :=
  match urls with
  | [] => mret None
  | img :: rest =>
      err ← wget env img (Join [input; jpg_name i]);
      match err with
      | Some e => mret (Some e)
      | None => download env input rest (S i)
      end
  end.

(** [json.NewEncoder(&buf).Encode(d)] into a [bytes.Buffer]: the buffer
    and the error. *)
Definition Encode_buffer (d : darkflowRequest) : json * option error :=
  (marshal_darkflowRequest d, None).

Definition is_error (err : option error) : bool :=
  match err with
  | Some _ => true
  | None => false
  end.

Definition recognize (env : Env) (cfg : Config) (r : Request) : M unit :=
  if bool_decide (Method r = MethodOptions) then setupResponse
  else
    let '(req, err) := Decode (ReqBody r) in
    if is_error err || bool_decide (length (ImageURLs req) = 0%nat) then
      jsonError env StatusBadRequest ("invalid json body: " +:+ fmt_v err)
    else
      id ← generateID env 8;
      err ← Mkdir env (Join [inputDir cfg; id]);
      match err with
      | Some e =>
          jsonError env StatusInternalServerError ("could not create input dir: " +:+ e)
      | None =>
          let input := Join [inputDir cfg; id] in
          err ← download env input (ImageURLs req) 0;
          match err with
          | Some e => jsonError env StatusInternalServerError e
          | None =>
              let output := Join [outputDir cfg; id] in
              let '(buf, err) :=
                Encode_buffer {| InputDir := input; OutputDir := output |} in
              match err with
              | Some e =>
                  jsonError env StatusInternalServerError
                    ("could not encode darkflow request: " +:+ e)
              | None =>
                  res ← Post env (darkflowURL cfg) "application/json" buf;
                  match res with
                  | inr e =>
                      jsonError env StatusInternalServerError
                        ("could not call darkflow: " +:+ e)
                  | inl code =>
                      if bool_decide (code ≠ StatusOK) then
                        jsonError env code "darkflow returned error"
                      else
                        res ← ReadDir env output;
                        match res with
                        | inr e =>
                            jsonError env StatusInternalServerError
                              ("could not read output dir: " +:+ e)
                        | inl files =>
                            let imgs := map (λ name, Join ["/output"; id; name]) files in
                            jsonResponse env StatusOK (marshal_strings imgs)
                        end
                  end
              end
          end
      end.

(** ** One request

    The server calls the handler with a response writer nothing has been
    written to; when the handler returns without having sent a status,
    the server sends 200. *)

Definition new_writer : ResponseWriter :=
  {| rw_header := ∅; rw_status := None; rw_sent := ∅; rw_body := [] |}.

Definition start (f : gmap string node) : World :=
  {| fs := f; rw := new_writer; trace := [] |}.

Definition serve (env : Env) (cfg : Config) (r : Request) (f : gmap string node) : World :=
  snd (recognize env cfg r (start f)).

Definition status_sent (σ : World) : Z := default StatusOK (rw_status (rw σ)).

(** The identifier and the two directories of the job of a request. *)
Definition job_id (env : Env) : string := fst (generateID env 8 (start ∅)).

Definition job_input (env : Env) (cfg : Config) : string := Join [inputDir cfg; job_id env].

Definition job_output (env : Env) (cfg : Config) : string := Join [outputDir cfg; job_id env].

(** ** Notions used to state the properties *)

(** What [Join] puts in front of an entry name joined to the directory
    [d]: nothing for the empty string, else the cleaned directory and its
    separator. *)
Definition dir_prefix (d : string) : string :=
  if bool_decide (d = "") then ""
  else
    let out := fold_left (clean_step (rooted d)) (segments d) [] in
    (if rooted d then "/" else "")
      +:+ (match out with [] => "" | _ => join_slash (rev out) +:+ "/" end).

(** The header map after [setupResponse] on a new writer. *)
Definition cors_header : gmap string string :=
  <["Access-Control-Allow-Headers" :=
      "Accept, Content-Type, Content-Length, Accept-Encoding, X-CSRF-Token, Authorization"]>
    (<["Access-Control-Allow-Methods" := "POST, GET, OPTIONS, PUT, DELETE"]>
       (<["Access-Control-Allow-Origin" := "*"]> ∅)).

(** The writer after [jsonResponse] on a new writer, [werr] being the
    result of the write to the client. *)
Definition answered (status : Z) (payload : json) (werr : option error) : ResponseWriter :=
  {| rw_header := if werr is None
                  then <["Content-Type" := "application/json"]> cors_header
                  else cors_header;
     rw_status := Some status;
     rw_sent := cors_header;
     rw_body := if werr is None then [payload] else [] |}.

(** A request that passes the check of the body. *)
Definition validated (r : Request) : Prop :=
  Method r ≠ MethodOptions
  ∧ snd (Decode (ReqBody r)) = None
  ∧ ImageURLs (fst (Decode (ReqBody r))) ≠ [].

Definition urls_of (r : Request) : list string := ImageURLs (fst (Decode (ReqBody r))).

(** Kinds of events. *)
Definition is_post (ev : Event) : bool :=
  match ev with EvPost _ _ _ _ => true | _ => false end.

Definition is_fetch (ev : Event) : bool :=
  match ev with EvGet _ _ | EvCreate _ _ | EvCopy _ _ _ => true | _ => false end.

(** A step of a download that failed: the GET, the creation of the file or
    the copy of the body. *)
Definition fetch_failed (ev : Event) : bool :=
  match ev with
  | EvGet _ (inr _) | EvCreate _ (Some _) | EvCopy _ _ (Some _) => true
  | _ => false
  end.

(** The URLs requested, the files created and the files fully written with
    what was written, in the order of the trace. *)
Definition gets (tr : list Event) : list string :=
  omap (λ ev, match ev with EvGet url _ => Some url | _ => None end) tr.

Definition creates (tr : list Event) : list string :=
  omap (λ ev, match ev with EvCreate name _ => Some name | _ => None end) tr.

Definition copied (tr : list Event) : list (string * string) :=
  omap (λ ev, match ev with EvCopy name w None => Some (name, w) | _ => None end) tr.

Definition mkdirs (tr : list Event) : list string :=
  omap (λ ev, match ev with EvMkdir name _ => Some name | _ => None end) tr.

(** The events of the download loop over [urls] from position [i] on, and
    the error it ends with: each URL in turn is requested, its file
    [i.jpg] created and the body copied; the first failing step ends the
    loop. *)
Inductive fetched (input : string) : nat → list string → list Event → option error → Prop :=
| fetched_done i :
    fetched input i [] [] None
| fetched_get_failed i url urls e :
    fetched input i (url :: urls) [EvGet url (inr e)] (Some ("could not wget image: " +:+ e))
| fetched_create_failed i url urls resp e :
    fetched input i (url :: urls)
      [EvGet url (inl resp); EvCreate (Join [input; jpg_name i]) (Some e)] (Some e)
| fetched_copy_failed i url urls resp w e :
    fetched input i (url :: urls)
      [EvGet url (inl resp); EvCreate (Join [input; jpg_name i]) None;
       EvCopy (Join [input; jpg_name i]) w (Some e)] (Some e)
| fetched_next i url urls resp evs err :
    fetched input (S i) urls evs err →
    fetched input i (url :: urls)
      (EvGet url (inl resp) :: EvCreate (Join [input; jpg_name i]) None
         :: EvCopy (Join [input; jpg_name i]) (Body resp) None :: evs) err.

(** What the download loop leaves in the file system [fd], having started
    from [f0]: the files it wrote in full hold what was written, and only
    the files [k.jpg] of the job directory, from position [i] on, can
    differ. *)
Definition downloaded (input : string) (i : nat) (evs : list Event)
    (f0 fd : gmap string node) : Prop :=
  (∀ name w, (name, w) ∈ copied evs → fd !! name = Some (File w))
  ∧ (∀ p, (∀ k, (i ≤ k)%nat → p ≠ Join [input; jpg_name k]) → fd !! p = f0 !! p).

(** The first event of a job, the body of its POST and the paths it
    answers with. *)
Definition rand_event (env : Env) : Event := EvRand 4 (rand_source env [] 4).

Definition darkflow_body (env : Env) (cfg : Config) : json :=
  marshal_darkflowRequest
    {| InputDir := job_input env cfg; OutputDir := job_output env cfg |}.

Definition image_paths (env : Env) (names : list string) : list string :=
  map (λ name, Join ["/output"; job_id env; name]) names.

(** The start of the trace of a job whose directory was made: the read of
    the random source, the [Mkdir] and the events [evs] of the loop. *)
Definition job_trace (env : Env) (cfg : Config) (evs : list Event) : list Event :=
  rand_event env :: EvMkdir (job_input env cfg) None :: evs.

(** The ways a request can end, each with the trace, the file system and
    the response writer it leaves.  [werr] is the result of the write to
    the client, [fd] the file system after the downloads. *)
Inductive outcome (env : Env) (cfg : Config) (r : Request) (f : gmap string node)
    (σ : World) : Prop :=
| out_options :
    Method r = MethodOptions →
    trace σ = [] → fs σ = f →
    rw σ = {| rw_header := cors_header; rw_status := None; rw_sent := ∅; rw_body := [] |} →
    outcome env cfg r f σ
| out_rejected werr :
    Method r ≠ MethodOptions → ¬ validated r →
    let payload :=
      marshal_reason ("invalid json body: " +:+ fmt_v (snd (Decode (ReqBody r)))) in
    trace σ = [EvWrite payload werr] → fs σ = f →
    rw σ = answered StatusBadRequest payload werr →
    outcome env cfg r f σ
| out_mkdir_failed e werr :
    validated r →
    let payload := marshal_reason ("could not create input dir: " +:+ e) in
    trace σ = [rand_event env; EvMkdir (job_input env cfg) (Some e); EvWrite payload werr] →
    fs σ = f →
    rw σ = answered StatusInternalServerError payload werr →
    outcome env cfg r f σ
| out_download_failed evs e werr :
    validated r →
    fetched (job_input env cfg) 0 (urls_of r) evs (Some e) →
    downloaded (job_input env cfg) 0 evs (<[job_input env cfg := Dir]> f) (fs σ) →
    trace σ = job_trace env cfg evs ++ [EvWrite (marshal_reason e) werr] →
    rw σ = answered StatusInternalServerError (marshal_reason e) werr →
    outcome env cfg r f σ
| out_post_failed evs fd e werr :
    validated r →
    fetched (job_input env cfg) 0 (urls_of r) evs None →
    downloaded (job_input env cfg) 0 evs (<[job_input env cfg := Dir]> f) fd →
    darkflow env (job_trace env cfg evs) fd (darkflowURL cfg) "application/json"
      (darkflow_body env cfg) = (inr e, fs σ) →
    let payload := marshal_reason ("could not call darkflow: " +:+ e) in
    trace σ = job_trace env cfg evs
              ++ [EvPost (darkflowURL cfg) "application/json" (darkflow_body env cfg) (inr e);
                  EvWrite payload werr] →
    rw σ = answered StatusInternalServerError payload werr →
    outcome env cfg r f σ
| out_post_status evs fd code werr :
    validated r →
    fetched (job_input env cfg) 0 (urls_of r) evs None →
    downloaded (job_input env cfg) 0 evs (<[job_input env cfg := Dir]> f) fd →
    darkflow env (job_trace env cfg evs) fd (darkflowURL cfg) "application/json"
      (darkflow_body env cfg) = (inl code, fs σ) →
    code ≠ StatusOK →
    let payload := marshal_reason "darkflow returned error" in
    let tr := job_trace env cfg evs
              ++ [EvPost (darkflowURL cfg) "application/json" (darkflow_body env cfg)
                    (inl code)] in
    werr = write_result env code tr payload →
    trace σ = tr ++ [EvWrite payload werr] →
    rw σ = answered code payload werr →
    outcome env cfg r f σ
| out_readdir_failed evs fd e werr :
    validated r →
    fetched (job_input env cfg) 0 (urls_of r) evs None →
    downloaded (job_input env cfg) 0 evs (<[job_input env cfg := Dir]> f) fd →
    darkflow env (job_trace env cfg evs) fd (darkflowURL cfg) "application/json"
      (darkflow_body env cfg) = (inl StatusOK, fs σ) →
    let payload := marshal_reason ("could not read output dir: " +:+ e) in
    trace σ = job_trace env cfg evs
              ++ [EvPost (darkflowURL cfg) "application/json" (darkflow_body env cfg)
                    (inl StatusOK);
                  EvReadDir (job_output env cfg) (inr e);
                  EvWrite payload werr] →
    rw σ = answered StatusInternalServerError payload werr →
    outcome env cfg r f σ
| out_ok evs fd werr :
    validated r →
    fetched (job_input env cfg) 0 (urls_of r) evs None →
    downloaded (job_input env cfg) 0 evs (<[job_input env cfg := Dir]> f) fd →
    darkflow env (job_trace env cfg evs) fd (darkflowURL cfg) "application/json"
      (darkflow_body env cfg) = (inl StatusOK, fs σ) →
    let names := list_dir (fs σ) (job_output env cfg) in
    let payload := marshal_strings (image_paths env names) in
    trace σ = job_trace env cfg evs
              ++ [EvPost (darkflowURL cfg) "application/json" (darkflow_body env cfg)
                    (inl StatusOK);
                  EvReadDir (job_output env cfg) (inl names);
                  EvWrite payload werr] →
    rw σ = answered StatusOK payload werr →
    outcome env cfg r f σ.

(** A run that answered 200 with a body. *)
Definition successful (σ : World) : Prop :=
  rw_status (rw σ) = Some StatusOK ∧ rw_body (rw σ) ≠ [].

(** The POST requests of a trace: URL, content type and body. *)
Definition posts (tr : list Event) : list (string * string * json) :=
  omap (λ ev, match ev with EvPost url ct body _ => Some (url, ct, body) | _ => None end) tr.

(** ** A sample deployment

    The default flags, a file system holding the two roots, and an
    environment in which every call succeeds: the random source delivers
    the byte [ab], each URL answers with a small body, and the service
    writes two files into the output directory it is given. *)

Definition default_config : Config :=
  {| inputDir := "/input"; outputDir := "/output"; darkflowURL := "http://darkflow:8000" |}.

Definition roots : gmap string node := {[ "/input" := Dir; "/output" := Dir ]}.

Definition sample_service (f : gmap string node) (body : json)
  : (Z + string) * gmap string node :=
  match body with
  | JObject [(_, JString _); (_, JString out)] =>
      (inl 200,
       <[out +:+ "/b.jpg" := File "boxes-b"]>
         (<[out +:+ "/a.jpg" := File "boxes-a"]> (<[out := Dir]> f)))
  | _ => (inl 422, f)
  end.

Definition sample_env : Env :=
  {| rand_source := λ _ n, replicate n Byte.xab;
     http_get := λ _ url,
       inl {| StatusCode := 200; Body := "image of " +:+ url; BodyErr := None |};
     os_fault := λ _ _, None;
     write_fault := λ _ _, None;
     darkflow := λ _ f _ _ body, sample_service f body;
     client_write := λ _ _, None |}.

(** A JSON text written with apostrophes in the place of its double
    quotes. *)
Fixpoint dq (s : string) : string :=
  match s with
  | EmptyString => EmptyString
  | String c rest => String (if bool_decide (c = "'"%char) then dquote else c) (dq rest)
  end.

Definition post_request (body : string) : Request := {| Method := "POST"; ReqBody := body |}.

Definition two_images : Request :=
  post_request (dq "{'image_urls': ['http://a/1.png', 'http://b/2.png']}").

Definition no_images : Request := post_request (dq "{'image_urls': []}").

(** A body that is not valid JSON: a bracket follows the object. *)
Definition trailing_text : Request :=
  post_request (dq "{'image_urls': ['http://a/1.png']} ]").

(** The same, with the client gone before the response is written. *)
Definition env_client_gone : Env :=
  {| rand_source := rand_source sample_env;
     http_get := http_get sample_env;
     os_fault := os_fault sample_env;
     write_fault := write_fault sample_env;
     darkflow := darkflow sample_env;
     client_write := λ _ _, Some "write: broken pipe" |}.

(** The same, with the second URL unreachable. *)
Definition env_second_unreachable : Env :=
  {| rand_source := rand_source sample_env;
     http_get := λ tr url,
       if bool_decide (url = "http://b/2.png") then inr "dial tcp: no route to host"
       else http_get sample_env tr url;
     os_fault := os_fault sample_env;
     write_fault := write_fault sample_env;
     darkflow := darkflow sample_env;
     client_write := client_write sample_env |}.


(** The same, with a service that answers 204 No Content. *)
Definition env_no_content : Env :=
  {| rand_source := rand_source sample_env;
     http_get := http_get sample_env;
     os_fault := os_fault sample_env;
     write_fault := write_fault sample_env;
     darkflow := λ _ f _ _ _, (inl 204, f);
     client_write := client_write sample_env |}.

(** A deployment whose two flags name the same directory. *)
Definition shared_config : Config :=
  {| inputDir := "/data"; outputDir := "/data"; darkflowURL := "http://darkflow:8000" |}.

(** ** Further notions *)

(** The header fields the handler gives to the response: its header map
    as it was when the status line was sent or, when the handler sent no
    status, the map it leaves, which the server sends with status 200.
    (The fields the server adds of its own, such as the date, are not
    part of it.) *)
Definition headers_sent (σ : World) : gmap string string :=
  match rw_status (rw σ) with
  | Some _ => rw_sent (rw σ)
  | None => rw_header (rw σ)
  end.



(** The reason the handler gives for a failed step of a download: only a
    failed GET is wrapped by [wget]; the errors of [os.Create] and
    [io.Copy] are passed on as they are. *)
Definition failure_reason (ev : Event) : string :=
  match ev with
  | EvGet _ (inr e) => "could not wget image: " +:+ e
  | EvCreate _ (Some e) => e
  | EvCopy _ _ (Some e) => e
  | _ => ""
  end.

(** [hex.DecodeString], the inverse of [EncodeToString]; it serves to show
    that the encoding loses nothing. *)
Fixpoint DecodeString (s : string) : option (list Byte.byte) :=
  match s with
  | EmptyString => Some []
  | String hi (String lo rest) =>
      match hexval hi, hexval lo, DecodeString rest with
      | Some a, Some b, Some bytes =>
          match Byte.of_N (a * 16 + b) with
          | Some v => Some (v :: bytes)
          | None => None
          end
      | _, _, _ => None
      end
  | String _ EmptyString => None
  end.

(** A service that answers 200 and writes nothing. *)
Definition env_idle_service : Env :=
  {| rand_source := rand_source sample_env;
     http_get := http_get sample_env;
     os_fault := os_fault sample_env;
     write_fault := write_fault sample_env;
     darkflow := λ _ f _ _ _, (inl 200, f);
     client_write := client_write sample_env |}.

(** A service that cannot be reached. *)
Definition env_service_down : Env :=
  {| rand_source := rand_source sample_env;
     http_get := http_get sample_env;
     os_fault := os_fault sample_env;
     write_fault := write_fault sample_env;
     darkflow := λ _ f _ _ _, (inr "dial tcp: connection refused", f);
     client_write := client_write sample_env |}.

(** A disk that fills up after five bytes of a file. *)
Definition env_disk_full : Env :=
  {| rand_source := rand_source sample_env;
     http_get := http_get sample_env;
     os_fault := os_fault sample_env;
     write_fault := λ _ _, Some (5%nat, "write: no space left on device");
     darkflow := darkflow sample_env;
     client_write := client_write sample_env |}.

(** Another random source. *)
Definition other_env : Env :=
  {| rand_source := λ _ n, replicate n Byte.x3c;
     http_get := http_get sample_env;
     os_fault := os_fault sample_env;
     write_fault := write_fault sample_env;
     darkflow := darkflow sample_env;
     client_write := client_write sample_env |}.

(** A request with the method OPTIONS and a body that is no JSON, and a
    GET request with the body of [two_images]. *)
Definition preflight : Request := {| Method := "OPTIONS"; ReqBody := "not json" |}.

Definition get_two_images : Request :=
  {| Method := "GET"; ReqBody := ReqBody two_images |}.

(** The result of [ioutil.ReadDir] of [name] after the calls [tr], in the
    file system [f]. *)
Definition readdir_result (env : Env) (tr : list Event) (f : gmap string node)
    (name : string) : list string + error :=
  fst (ReadDir env name {| fs := f; rw := new_writer; trace := tr |}).

(** A run whose last two calls are a listing and the write of the
    response took the listing in the file system it ends with. *)
Definition listing_checked (env : Env) (σ : World) : Prop :=
  match rev (trace σ) with
  | EvWrite _ _ :: EvReadDir name res :: pre =>
      res = readdir_result env (rev pre) (fs σ) name
  | _ => True
  end.

(** The two roots, with a directory at the path of the job of
    [sample_env]. *)
Definition roots_with_job : gmap string node :=
  <["/input/abababab" := Dir]> roots.

(** The response of the GET at position [i] of the download loop of a
    job: the calls of a position are the GET, the creation of the file
    and the copy, after the read of the random source and the [Mkdir]. *)
Definition get_event (tr : list Event) (i : nat) : option Event := tr !! (2 + 3 * i)%nat.

(** A writer whose status line has gone out with status 204. *)
Definition sent_no_content : World := snd (WriteHeader 204 (start roots)).

(** A response whose body breaks off with an error after the bytes in
    [Body]. *)
Definition env_body_breaks : Env :=
  {| rand_source := rand_source sample_env;
     http_get := λ _ _,
       inl {| StatusCode := 200; Body := "ima"; BodyErr := Some "unexpected EOF" |};
     os_fault := os_fault sample_env;
     write_fault := write_fault sample_env;
     darkflow := darkflow sample_env;
     client_write := client_write sample_env |}.

(** ** The routes of [main]

    [main] registers two patterns with the default mux: [/output/] for
    the file server over the output root, behind [http.StripPrefix], and
    [/recognize] for the handler.  [mux] is [ServeMux.Handler] for these
    two patterns, for a request with a method other than CONNECT and the
    URL path [path]: a path that is not clean is redirected to its clean
    form, [/output] is redirected to [/output/], a pattern without a
    trailing slash matches its own path only, and a pattern with one
    matches every path under it. *)

Fixpoint has_suffix (suffix s : string) : bool :=
  bool_decide (s = suffix)
  || match s with
     | String _ rest => has_suffix suffix rest
     | EmptyString => false
     end.

(** [cleanPath] of net/http: the path is made rooted and cleaned, and
    keeps the slash it ended with. *)
Definition cleanPath (p : string) : string :=
  if bool_decide (p = "") then "/"
  else
    let p := if rooted p then p else "/" +:+ p in
    let np := Clean p in
    if has_suffix "/" p && negb (bool_decide (np = "/")) then np +:+ "/" else np.

Inductive Handler : Type :=
| RedirectHandler (url : string)
| recognize_handler
| file_handler (path : string)
| NotFoundHandler.

(** The path of [file_handler] is the one [http.StripPrefix] hands to
    the file server: the path without the prefix [/output/]. *)
Definition mux (path : string) : Handler :=
  let clean := cleanPath path in
  if bool_decide (clean = "/output") then RedirectHandler "/output/"
  else if bool_decide (clean = path) then
    if bool_decide (path = "/recognize") then recognize_handler
    else match strip_prefix "/output/" path with
         | Some rest => file_handler rest
         | None => NotFoundHandler
         end
  else RedirectHandler clean.

(** [http.Dir(dir).Open(name)]: the name of the file that is opened; a
    name with a zero byte is refused. *)
Definition Dir_Open (dir name : string) : option string :=
  if str_all (λ c, negb (bool_decide (c = Ascii.zero))) name
  then Some (Join [if bool_decide (dir = "") then "." else dir; Clean ("/" +:+ name)])
  else None.

(** What the file server does with the path it is handed, up to the
    opening of the file: a path that ends in [/index.html] is redirected,
    any other is cleaned and opened under the root.  What is served from
    the file is left out. *)
Inductive Opened : Type :=
| index_redirect
| invalid_path
| opened (fullName : string).

Definition FileServer (root path : string) : Opened :=
  let upath := if rooted path then path else "/" +:+ path in
  if has_suffix "/index.html" upath then index_redirect
  else match Dir_Open root (Clean upath) with
       | Some fullName => opened fullName
       | None => invalid_path
       end.

(** * Properties *)

(** ** Strings and hexadecimal digits *)

Lemma str_take_length n s : String.length (str_take n s) = (n `min` String.length s)%nat.
Proof.
  revert s; induction n as [|n IH]; intros [|c s]; simpl; try reflexivity.
  now rewrite IH.
Qed.

Lemma str_all_take p n s : str_all p s = true → str_all p (str_take n s) = true.
Proof.
  revert s; induction n as [|n IH]; intros [|c s]; simpl; try reflexivity.
  intros [Hc Hs]%andb_true_iff. rewrite Hc. now apply IH.
Qed.

Lemma str_all_app p s t : str_all p (s +:+ t) = str_all p s && str_all p t.
Proof. induction s as [|c s IH]; simpl; [reflexivity|]. now rewrite IH, andb_assoc. Qed.

Lemma hexdigit_hi v : is_lower_hex (hexdigit (N.shiftr (Byte.to_N v) 4)) = true.
Proof. destruct v; vm_compute; reflexivity. Qed.

Lemma hexdigit_lo v : is_lower_hex (hexdigit (N.land (Byte.to_N v) 15)) = true.
Proof. destruct v; vm_compute; reflexivity. Qed.

Lemma EncodeToString_length src : String.length (EncodeToString src) = (2 * length src)%nat.
Proof. induction src as [|v src IH]; simpl; [reflexivity|]. rewrite IH. lia. Qed.

Lemma EncodeToString_hex src : str_all is_lower_hex (EncodeToString src) = true.
Proof.
  induction src as [|v src IH]; [reflexivity|].
  cbn [EncodeToString str_all]. now rewrite hexdigit_hi, hexdigit_lo, IH.
Qed.

Lemma fill_length buf data : length (fill buf data) = length buf.
Proof. unfold fill. rewrite length_app, length_take, length_drop. lia. Qed.

Lemma make_bytes_length n : length (make_bytes n) = Z.to_nat n.
Proof. apply length_replicate. Qed.

(** A full read replaces the buffer. *)
Lemma fill_full buf data : length data = length buf → fill buf data = data.
Proof.
  intros H. unfold fill. rewrite H, drop_all, app_nil_r. apply take_ge. lia.
Qed.

(** The buffer of [generateID] holds enough bytes for [len] digits. *)
Lemma buffer_size len :
  1 ≤ len → (Z.to_nat len ≤ 2 * Z.to_nat ((len - 1) ÷ 2 + 1))%nat.
Proof.
  intros H. rewrite Z.quot_div_nonneg by lia.
  pose proof (Z.div_mod (len - 1) 2 ltac:(lia)) as Hd.
  pose proof (Z.mod_pos_bound (len - 1) 2 ltac:(lia)) as Hm.
  assert (0 ≤ (len - 1) `div` 2) by (apply Z.div_pos; lia).
  lia.
Qed.

(** ** The fuel of the parser

    Every scanner returns a rest shorter than its input, so the fuel that
    [first_value] gives to [parse_value] is never used up: more fuel gives
    the same result. *)

Lemma skip_space_length s : (String.length (skip_space s) ≤ String.length s)%nat.
Proof.
  induction s as [|c s IH]; [reflexivity|]. cbn [skip_space].
  destruct (is_space c); cbn [String.length]; lia.
Qed.

Lemma strip_prefix_length p s r :
  strip_prefix p s = Some r → (String.length r + String.length p = String.length s)%nat.
Proof.
  revert s; induction p as [|a p IH]; intros [|b s] H; cbn in H; try discriminate.
  - now injection H as <-.
  - injection H as <-. cbn. lia.
  - destruct (decide (a = b)); [|discriminate]. apply IH in H. cbn [String.length]. lia.
Qed.

Lemma scan_string_length_le n :
  ∀ s us r, (String.length s ≤ n)%nat → scan_string s = Some (us, r) →
            (String.length r < String.length s)%nat.
Proof.
  induction n as [|n IH]; intros s us r Hn H.
  { destruct s; [discriminate | cbn [String.length] in Hn; lia]. }
  destruct s as [|c rest]; [discriminate|]. cbn [scan_string] in H.
  cbn [String.length] in *.
  destruct (bool_decide (c = dquote)); [injection H as _ <-; lia|].
  destruct (bool_decide (c = "\"%char)).
  - destruct rest as [|e rest1]; [discriminate|].
    destruct (bool_decide (e = "u"%char)).
    + destruct rest1 as [|h1 [|h2 [|h3 [|h4 rest2]]]]; try discriminate.
      destruct (getu4 h1 h2 h3 h4); [|discriminate].
      destruct (scan_string rest2) as [[us' out]|] eqn:E; [|discriminate].
      injection H as _ <-. cbn [String.length] in *. apply IH in E; lia.
    + destruct (simple_escape e); [|discriminate].
      destruct (scan_string rest1) as [[us' out]|] eqn:E; [|discriminate].
      injection H as _ <-. cbn [String.length] in *. apply IH in E; lia.
  - destruct (byte_val c <? 32)%N; [discriminate|].
    destruct (scan_string rest) as [[us' out]|] eqn:E; [|discriminate].
    injection H as _ <-. apply IH in E; lia.
Qed.

Lemma scan_string_length s us r :
  scan_string s = Some (us, r) → (String.length r < String.length s)%nat.
Proof. apply (scan_string_length_le (String.length s)). lia. Qed.

Lemma parse_string_length s str r :
  parse_string s = Some (str, r) → (String.length r < String.length s)%nat.
Proof.
  unfold parse_string. destruct (scan_string s) as [[us out]|] eqn:E; [|discriminate].
  intros [= _ <-]. now apply scan_string_length in E.
Qed.

Lemma span_digits_length s :
  (String.length (snd (span_digits s)) ≤ String.length s)%nat.
Proof.
  induction s as [|c s IH]; [reflexivity|]. cbn [span_digits].
  destruct (is_digit c); [|reflexivity].
  destruct (span_digits s) as [ds out]. cbn [snd String.length] in *. lia.
Qed.

Lemma digits1_length s ds r :
  digits1 s = Some (ds, r) → (String.length r ≤ String.length s)%nat.
Proof.
  unfold digits1. pose proof (span_digits_length s) as H.
  destruct (span_digits s) as [[|d ds'] out]; [discriminate|].
  now intros [= _ <-].
Qed.

Lemma scan_int_length s i r :
  scan_int s = Some (i, r) → (String.length r < String.length s)%nat.
Proof.
  destruct s as [|c rest]; [discriminate|]. cbn [scan_int String.length].
  destruct (bool_decide (c = "0"%char)); [intros [= _ <-]; lia|].
  destruct (is_digit c); [|discriminate].
  pose proof (span_digits_length rest) as H.
  destruct (span_digits rest) as [ds out]. intros [= _ <-]. cbn [snd] in H. lia.
Qed.

Lemma scan_frac_length s f r :
  scan_frac s = Some (f, r) → (String.length r ≤ String.length s)%nat.
Proof.
  destruct s as [|c rest]; [now intros [= _ <-]|]. cbn [scan_frac].
  destruct (bool_decide (c = "."%char)); [|now intros [= _ <-]].
  destruct (digits1 rest) as [[ds out]|] eqn:E; [|discriminate].
  intros [= _ <-]. apply digits1_length in E. cbn [String.length]. lia.
Qed.

Lemma scan_exp_length s e r :
  scan_exp s = Some (e, r) → (String.length r ≤ String.length s)%nat.
Proof.
  destruct s as [|c rest]; [now intros [= _ <-]|]. cbn [scan_exp].
  destruct (bool_decide (c = "e"%char) || bool_decide (c = "E"%char)); [|now intros [= _ <-]].
  assert (∀ rest1 ds out,
    (String.length rest1 ≤ String.length rest)%nat →
    digits1 rest1 = Some (ds, out) →
    (String.length out ≤ String.length (String c rest))%nat) as Haux.
  { intros rest1 ds out Hl E%digits1_length. cbn [String.length]. lia. }
  destruct rest as [|g rest'].
  - destruct (digits1 "") as [[ds out]|] eqn:E; [|discriminate].
    intros [= _ <-]. eapply Haux; [|eassumption]. lia.
  - destruct (bool_decide (g = "+"%char) || bool_decide (g = "-"%char)).
    + destruct (digits1 rest') as [[ds out]|] eqn:E; [|discriminate].
      intros [= _ <-]. eapply Haux; [|eassumption]. cbn [String.length]. lia.
    + destruct (digits1 (String g rest')) as [[ds out]|] eqn:E; [|discriminate].
      intros [= _ <-]. eapply Haux; [|eassumption]. lia.
Qed.

Lemma scan_number_length s lit r :
  scan_number s = Some (lit, r) → (String.length r < String.length s)%nat.
Proof.
  unfold scan_number.
  assert (∀ sign s1,
    (String.length s1 ≤ String.length s)%nat →
    match scan_int s1 with
    | Some (i, s2) =>
        match scan_frac s2 with
        | Some (f, s3) =>
            match scan_exp s3 with
            | Some (e, s4) => Some (sign +:+ i +:+ f +:+ e, s4)
            | None => None
            end
        | None => None
        end
    | None => None
    end = Some (lit, r) → (String.length r < String.length s)%nat) as Haux.
  { intros sign s1 Hl H.
    destruct (scan_int s1) as [[i s2]|] eqn:E1; [|discriminate].
    destruct (scan_frac s2) as [[f s3]|] eqn:E2; [|discriminate].
    destruct (scan_exp s3) as [[e s4]|] eqn:E3; [|discriminate].
    injection H as _ <-.
    apply scan_int_length in E1. apply scan_frac_length in E2. apply scan_exp_length in E3.
    lia. }
  destruct s as [|c rest]; [apply (Haux ""); lia|].
  destruct (bool_decide (c = "-"%char)); apply Haux; cbn [String.length]; lia.
Qed.

Ltac rest_shorter IHv IHe IHm :=
  repeat match goal with
    | H : parse_value _ _ = Some _ |- _ => apply IHv in H
    | H : parse_elements _ _ = Some _ |- _ => apply IHe in H
    | H : parse_members _ _ = Some _ |- _ => apply IHm in H
    | H : parse_string _ = Some _ |- _ => apply parse_string_length in H
    | H : strip_prefix _ _ = Some _ |- _ => apply strip_prefix_length in H
    | H : scan_number _ = Some _ |- _ => apply scan_number_length in H
    | H : skip_space ?x = _ |- _ =>
        let H' := fresh "Hs" in
        pose proof (skip_space_length x) as H'; rewrite H in H'; clear H
    end;
  repeat match goal with
    | H : context [String.length (skip_space ?x)] |- _ =>
        lazymatch goal with
        | _ : (String.length (skip_space x) ≤ String.length x)%nat |- _ => fail
        | _ => pose proof (skip_space_length x)
        end
    end;
  cbn [String.length] in *; try lia.

Lemma parse_lengths f :
  (∀ s v r, parse_value f s = Some (v, r) → (String.length r < String.length s)%nat)
  ∧ (∀ s vs r, parse_elements f s = Some (vs, r) → (String.length r < String.length s)%nat)
  ∧ (∀ s ms r, parse_members f s = Some (ms, r) → (String.length r < String.length s)%nat).
Proof.
  induction f as [|f (IHv & IHe & IHm)]; [repeat split; discriminate|].
  split_and!.
  - intros s v r H. cbn [parse_value] in H. unfold option_map in H.
    repeat case_match; simplify_eq; rest_shorter IHv IHe IHm.
  - intros s vs r H. cbn [parse_elements] in H.
    repeat case_match; simplify_eq; rest_shorter IHv IHe IHm.
  - intros s ms r H. cbn [parse_members] in H.
    repeat case_match; simplify_eq; rest_shorter IHv IHe IHm.
Qed.

Ltac fuel_side f :=
  repeat match goal with
    | |- context [String.length (skip_space ?x)] =>
        lazymatch goal with
        | _ : (String.length (skip_space x) ≤ String.length x)%nat |- _ => fail
        | _ => pose proof (skip_space_length x)
        end
    end;
  rest_shorter (proj1 (parse_lengths f)) (proj1 (proj2 (parse_lengths f)))
    (proj2 (proj2 (parse_lengths f))).

(** One unfolding of the call on each side of [l = r], the nested calls
    left folded. *)
Ltac unfold_parsers_once f :=
  let g := fresh "g" in
  let Eg := fresh "Eg" in
  remember (S f) as g eqn:Eg;
  cbn [parse_value parse_elements parse_members];
  subst g;
  match goal with
  | |- ?l = ?rhs =>
      let r := eval cbn [parse_value parse_elements parse_members] in rhs in
      change (l = r)
  end.

Ltac same_with_less_fuel f IHv IHe IHm :=
  repeat first
    [ reflexivity
    | rewrite IHv by fuel_side f
    | rewrite IHe by fuel_side f
    | rewrite IHm by fuel_side f
    | case_match ].

Lemma parse_fuel_step f :
  (∀ s, (2 * String.length s + 2 ≤ f)%nat → parse_value (S f) s = parse_value f s)
  ∧ (∀ s, (2 * String.length s + 3 ≤ f)%nat → parse_elements (S f) s = parse_elements f s)
  ∧ (∀ s, (2 * String.length s + 2 ≤ f)%nat → parse_members (S f) s = parse_members f s).
Proof.
  induction f as [|f (IHv & IHe & IHm)]; [split_and!; intros; lia|].
  split_and!; intros s Hb; unfold_parsers_once f; same_with_less_fuel f IHv IHe IHm.
Qed.

(** More fuel than [first_value] takes changes nothing. *)
Theorem parse_fuel_enough s f :
  (parse_fuel s ≤ f)%nat → parse_value f s = first_value s.
Proof.
  unfold first_value, parse_fuel. induction 1 as [|f Hle IH]; [reflexivity|].
  rewrite <- IH. apply parse_fuel_step. lia.
Qed.

(** ** Paths *)

Lemma str_app_cons (x : ascii) (a b : string) : String x a +:+ b = String x (a +:+ b).
Proof. reflexivity. Qed.

Lemma str_app_assoc (a b c : string) : (a +:+ b) +:+ c = a +:+ (b +:+ c).
Proof.
  induction a as [|x a IH]; [reflexivity|]. rewrite !str_app_cons. f_equal. exact IH.
Qed.

Lemma str_app_nil_r (a : string) : a +:+ "" = a.
Proof. induction a as [|x a IH]; [reflexivity|]. rewrite str_app_cons. f_equal. exact IH. Qed.

Lemma str_app_length (a b : string) :
  String.length (a +:+ b) = (String.length a + String.length b)%nat.
Proof.
  induction a as [|x a IH]; [reflexivity|]. rewrite str_app_cons. cbn [String.length].
  now rewrite IH.
Qed.

Lemma str_app_inv_r (a b t : string) : a +:+ t = b +:+ t → a = b.
Proof.
  revert b; induction a as [|x a IH]; intros [|y b] H.
  - reflexivity.
  - apply (f_equal String.length) in H. rewrite !str_app_length in H.
    cbn [String.length] in H. lia.
  - apply (f_equal String.length) in H. rewrite !str_app_length in H.
    cbn [String.length] in H. lia.
  - rewrite !str_app_cons in H. injection H as -> H. f_equal. now apply IH.
Qed.

Lemma segments_not_nil path : segments path ≠ [].
Proof.
  induction path as [|c path IH]; simpl; [discriminate|].
  destruct (is_slash c); [discriminate|]. destruct (segments path); discriminate.
Qed.

Lemma segments_no_slash name :
  str_all (λ c, negb (is_slash c)) name = true → segments name = [name].
Proof.
  induction name as [|c name IH]; simpl; [reflexivity|].
  intros [Hc Hn]%andb_true_iff. apply negb_true_iff in Hc. rewrite Hc, IH by assumption.
  reflexivity.
Qed.

(** Splitting distributes over a separator. *)
Lemma segments_app_slash a b :
  segments (a +:+ "/" +:+ b) = segments a ++ segments b.
Proof.
  induction a as [|c a IH]; [reflexivity|].
  rewrite str_app_cons. cbn [segments].
  rewrite IH. destruct (is_slash c); [reflexivity|].
  destruct (segments a) as [|seg more] eqn:E; [now apply segments_not_nil in E|].
  reflexivity.
Qed.

Lemma entry_name_ok_inv name :
  entry_name_ok name = true →
  name ≠ "" ∧ name ≠ "." ∧ name ≠ ".." ∧ str_all (λ c, negb (is_slash c)) name = true.
Proof.
  unfold entry_name_ok. rewrite !andb_true_iff, !negb_true_iff, !bool_decide_eq_false.
  tauto.
Qed.

Lemma clean_step_entry root out name :
  entry_name_ok name = true → clean_step root out name = name :: out.
Proof.
  intros (H1 & H2 & H3 & _)%entry_name_ok_inv. unfold clean_step.
  rewrite !bool_decide_eq_false_2 by assumption. reflexivity.
Qed.

Lemma join_slash_snoc l name :
  join_slash (l ++ [name]) =
  match l with [] => name | _ => join_slash l +:+ "/" +:+ name end.
Proof.
  induction l as [|e l IH]; [reflexivity|].
  destruct l as [|e' l]; [reflexivity|].
  change (join_slash ((e :: e' :: l) ++ [name]))
    with (e +:+ "/" +:+ join_slash ((e' :: l) ++ [name])).
  rewrite IH. change (join_slash (e :: e' :: l)) with (e +:+ "/" +:+ join_slash (e' :: l)).
  now rewrite !str_app_assoc.
Qed.

Lemma rooted_app d s : d ≠ "" → rooted (d +:+ s) = rooted d.
Proof. destruct d; [congruence | reflexivity]. Qed.

Lemma str_app_not_nil_r (a b : string) : b ≠ "" → a +:+ b ≠ "".
Proof. destruct a; [auto | discriminate]. Qed.

(** Joining an entry name to a directory puts the cleaned directory in
    front of the name. *)
Lemma Join_entry d name :
  entry_name_ok name = true → Join [d; name] = dir_prefix d +:+ name.
Proof.
  intros Hok. pose proof Hok as (Hne & _ & _ & Hns)%entry_name_ok_inv.
  unfold dir_prefix. cbn [Join]. destruct (bool_decide_reflect (d = "")) as [->|Hd].
  - rewrite bool_decide_eq_false_2 by assumption. cbn [join_slash]. unfold Clean.
    rewrite bool_decide_eq_false_2 by assumption.
    rewrite (segments_no_slash name) by assumption. cbn [fold_left].
    rewrite clean_step_entry by assumption. unfold render. cbn [rev app join_slash].
    assert (rooted name = false) as ->.
    { destruct name as [|c name]; [reflexivity|]. simpl in Hns.
      apply andb_true_iff in Hns as [Hc _]. now apply negb_true_iff in Hc. }
    now rewrite bool_decide_eq_false_2 by assumption.
  - cbn [join_slash]. unfold Clean.
    rewrite bool_decide_eq_false_2 by (destruct d; [congruence | discriminate]).
    rewrite rooted_app by assumption.
    rewrite segments_app_slash, (segments_no_slash name), fold_left_app by assumption.
    cbn [fold_left]. rewrite clean_step_entry by assumption.
    set (out := fold_left (clean_step (rooted d)) (segments d) []).
    unfold render. cbn [rev]. rewrite join_slash_snoc.
    destruct (rooted d).
    + destruct out as [|top out']; [reflexivity|].
      destruct (rev (top :: out')) eqn:E.
      { apply (f_equal (@length _)) in E. rewrite length_rev in E. discriminate. }
      now rewrite !str_app_assoc.
    + destruct out as [|top out'].
      { cbn [rev]. now rewrite bool_decide_eq_false_2 by assumption. }
      destruct (rev (top :: out')) eqn:E.
      { apply (f_equal (@length _)) in E. rewrite length_rev in E. discriminate. }
      rewrite bool_decide_eq_false_2.
      * now rewrite !str_app_assoc.
      * apply str_app_not_nil_r. discriminate.
Qed.

(** For a directory that is already clean, other than the root and [.],
    the joined path is the directory, a separator and the name. *)
Lemma dir_prefix_clean d :
  Clean d = d → d ≠ "/" → d ≠ "." → dir_prefix d = d +:+ "/".
Proof.
  intros Hc Hroot Hdot. unfold dir_prefix.
  assert (d ≠ "") as Hd by (intros ->; discriminate).
  rewrite bool_decide_eq_false_2 by assumption.
  unfold Clean in Hc. rewrite bool_decide_eq_false_2 in Hc by assumption.
  remember (fold_left (clean_step (rooted d)) (segments d) []) as out eqn:Eout.
  clear Eout. unfold render in Hc. destruct (rooted d).
  - destruct out as [|top out']; [now cbn in Hc; symmetry in Hc|].
    subst d. now rewrite !str_app_assoc.
  - destruct out as [|top out']; [now cbn in Hc; symmetry in Hc|].
    destruct (bool_decide_reflect (join_slash (rev (top :: out')) = "")) as [E|E];
      [now symmetry in Hc|].
    subst d. reflexivity.
Qed.

Lemma Join_entry_clean d name :
  Clean d = d → d ≠ "/" → d ≠ "." → entry_name_ok name = true →
  Join [d; name] = d +:+ "/" +:+ name.
Proof.
  intros. rewrite Join_entry, dir_prefix_clean by assumption. apply str_app_assoc.
Qed.

Lemma Join_entry2 a b c :
  a ≠ "" → entry_name_ok b = true → entry_name_ok c = true →
  Join [a; b; c] = dir_prefix a +:+ b +:+ "/" +:+ c.
Proof.
  intros Ha Hb Hc.
  pose proof Hb as (_ & _ & _ & Hbs)%entry_name_ok_inv.
  pose proof Hc as (_ & _ & _ & Hcs)%entry_name_ok_inv.
  unfold dir_prefix. cbn [Join]. rewrite !bool_decide_eq_false_2 by assumption.
  change (join_slash [a; b; c]) with (a +:+ "/" +:+ (b +:+ "/" +:+ c)).
  unfold Clean.
  rewrite bool_decide_eq_false_2 by (destruct a; [congruence | discriminate]).
  rewrite rooted_app by assumption.
  rewrite !segments_app_slash, (segments_no_slash b), (segments_no_slash c) by assumption.
  rewrite fold_left_app. cbn [fold_left app]. rewrite !clean_step_entry by assumption.
  remember (fold_left (clean_step (rooted a)) (segments a) []) as out eqn:Eout. clear Eout.
  unfold render. cbn [rev]. rewrite !join_slash_snoc.
  assert (∀ l : list string, l ++ [b] = [] → False) as Hnil by (intros []; discriminate).
  destruct (rev out ++ [b]) as [|x l] eqn:E; [now apply Hnil in E|]. clear E x l.
  assert (∀ s t : string, (s +:+ "/" +:+ t = "") → False) as Hne.
  { intros [] ?; discriminate. }
  destruct out as [|top out'].
  - cbn [rev app]. destruct (rooted a);
      rewrite ?bool_decide_eq_false_2 by (intros E; now apply Hne in E); reflexivity.
  - destruct (rev (top :: out')) as [|x l] eqn:E.
    { apply (f_equal (@length _)) in E. rewrite length_rev in E. discriminate. }
    cbn [app]. destruct (rooted a);
      rewrite ?bool_decide_eq_false_2 by (intros E'; now apply Hne in E');
      now rewrite ?str_app_assoc.
Qed.

(** ** Names of jobs and files *)

Lemma lower_hex_no_slash c : is_lower_hex c = true → negb (is_slash c) = true.
Proof.
  intros H. apply negb_true_iff, bool_decide_eq_false. intros ->. discriminate.
Qed.

Lemma str_all_impl (p q : ascii → bool) s :
  (∀ c, p c = true → q c = true) → str_all p s = true → str_all q s = true.
Proof.
  intros Hpq. induction s as [|c s IH]; [reflexivity|]. cbn [str_all].
  intros [Hc Hs]%andb_true_iff. rewrite (Hpq _ Hc). now apply IH.
Qed.

(** A non-empty string of hexadecimal digits can name a directory entry. *)
Lemma hex_entry_name_ok s :
  str_all is_lower_hex s = true → s ≠ "" → entry_name_ok s = true.
Proof.
  intros Hhex Hne. unfold entry_name_ok.
  rewrite (str_all_impl _ _ _ lower_hex_no_slash Hhex), andb_true_r.
  rewrite !andb_true_iff, !negb_true_iff, !bool_decide_eq_false.
  repeat split; [assumption | intros -> | intros ->]; discriminate.
Qed.

Lemma uint_digits d : str_all is_digit (NilEmpty.string_of_uint d) = true.
Proof. induction d; cbn [NilEmpty.string_of_uint str_all]; rewrite ?IHd; reflexivity. Qed.

Lemma digit_no_slash c : is_digit c = true → negb (is_slash c) = true.
Proof.
  intros H. apply negb_true_iff, bool_decide_eq_false. intros ->. discriminate.
Qed.

Lemma jpg_name_ok i : entry_name_ok (jpg_name i) = true.
Proof.
  unfold entry_name_ok, jpg_name, itoa.
  assert (4 ≤ String.length (NilEmpty.string_of_uint (Nat.to_uint i) +:+ ".jpg"))%nat as Hlen.
  { rewrite str_app_length. cbn [String.length]. lia. }
  rewrite !andb_true_iff, !negb_true_iff, !bool_decide_eq_false.
  repeat split; try (intros E; rewrite E in Hlen; cbn in Hlen; lia).
  rewrite str_all_app, (str_all_impl _ _ _ digit_no_slash (uint_digits _)). reflexivity.
Qed.

Lemma itoa_inj i j : itoa i = itoa j → i = j.
Proof.
  unfold itoa. intros H. apply Unsigned.to_uint_inj.
  apply (f_equal NilEmpty.uint_of_string) in H. rewrite !NilEmpty.usu in H. congruence.
Qed.

Lemma jpg_name_inj i j : jpg_name i = jpg_name j → i = j.
Proof. unfold jpg_name. intros H%str_app_inv_r. now apply itoa_inj. Qed.

(** The files of one job directory are distinct by position. *)
Lemma job_file_inj input i j :
  Join [input; jpg_name i] = Join [input; jpg_name j] → i = j.
Proof.
  rewrite !Join_entry by apply jpg_name_ok. intros H%String.app_inj.
  now apply jpg_name_inj.
Qed.

Lemma Join_entry_clean2 d a b :
  Clean d = d → d ≠ "/" → d ≠ "." →
  entry_name_ok a = true → entry_name_ok b = true →
  Join [Join [d; a]; b] = d +:+ "/" +:+ a +:+ "/" +:+ b.
Proof.
  intros Hc Hroot Hdot Ha Hb.
  assert (d ≠ "") as Hd by (intros ->; discriminate).
  pose proof (Join_entry_clean d a Hc Hroot Hdot Ha) as Hda.
  assert (Clean (d +:+ "/" +:+ a) = d +:+ "/" +:+ a) as Hc2.
  { rewrite <- Hda at 2. cbn [Join join_slash].
    now rewrite bool_decide_eq_false_2 by assumption. }
  rewrite Hda, Join_entry_clean; [now rewrite !str_app_assoc | assumption | | | assumption].
  - intros E. apply (f_equal String.length) in E. rewrite !str_app_length in E.
    apply entry_name_ok_inv in Ha as (Hne & _). destruct a; [congruence|].
    cbn [String.length] in E. lia.
  - intros E. apply (f_equal String.length) in E. rewrite !str_app_length in E.
    apply entry_name_ok_inv in Ha as (Hne & _). destruct a; [congruence|].
    cbn [String.length] in E. lia.
Qed.

(** ** The calls, one at a time *)

Ltac unfold_monad :=
  unfold mbind, M_bind, mret, M_ret, emit, set_fs, set_rw, get_world.

Lemma rand_Read_run env buf σ :
  rand_Read env buf σ =
  (fill buf (rand_source env (trace σ) (length buf)),
   {| fs := fs σ; rw := rw σ;
      trace := trace σ ++ [EvRand (length buf) (rand_source env (trace σ) (length buf))] |}).
Proof. reflexivity. Qed.

Lemma generateID_run env len σ :
  generateID env len σ =
  let n := Z.to_nat ((len - 1) ÷ 2 + 1) in
  let data := rand_source env (trace σ) n in
  (str_take (Z.to_nat len) (EncodeToString (fill (make_bytes ((len - 1) ÷ 2 + 1)) data)),
   {| fs := fs σ; rw := rw σ; trace := trace σ ++ [EvRand n data] |}).
Proof.
  unfold generateID. unfold_monad. rewrite rand_Read_run, make_bytes_length. reflexivity.
Qed.

Lemma Mkdir_run env name σ :
  ∃ err, Mkdir env name σ =
    (err, {| fs := if err is None then <[name := Dir]> (fs σ) else fs σ;
             rw := rw σ; trace := trace σ ++ [EvMkdir name err] |}).
Proof.
  unfold Mkdir. unfold_monad.
  destruct (os_fault env (trace σ) (OpMkdir name)) as [e|].
  - exists (Some e). reflexivity.
  - destruct (bool_decide (is_Some (fs σ !! name)));
      [exists (Some ("mkdir " +:+ name +:+ ": file exists")) | exists None]; reflexivity.
Qed.

Lemma Get_run env url σ :
  Get env url σ =
  (http_get env (trace σ) url,
   {| fs := fs σ; rw := rw σ; trace := trace σ ++ [EvGet url (http_get env (trace σ) url)] |}).
Proof. reflexivity. Qed.

Lemma Create_run env name σ :
  ∃ err, Create env name σ =
    (err, {| fs := if err is None then <[name := File ""]> (fs σ) else fs σ;
             rw := rw σ; trace := trace σ ++ [EvCreate name err] |}).
Proof.
  unfold Create. unfold_monad.
  destruct (os_fault env (trace σ) (OpCreate name)) as [e|].
  - exists (Some e). reflexivity.
  - destruct (is_dir (fs σ) name);
      [exists (Some ("open " +:+ name +:+ ": is a directory")) | exists None]; reflexivity.
Qed.

Lemma Copy_run env name response σ :
  ∃ written err, Copy env name response σ =
    (err, {| fs := <[name := File written]> (fs σ); rw := rw σ;
             trace := trace σ ++ [EvCopy name written err] |})
    ∧ (err = None → written = Body response).
Proof.
  unfold Copy. unfold_monad.
  destruct (write_fault env (trace σ) name) as [[n e]|].
  - exists (str_take n (Body response)), (Some e). split; [reflexivity | discriminate].
  - exists (Body response), (BodyErr response). split; [reflexivity | reflexivity].
Qed.

Lemma Post_run env url ctype body σ :
  Post env url ctype body σ =
  let res := darkflow env (trace σ) (fs σ) url ctype body in
  (fst res, {| fs := snd res; rw := rw σ;
               trace := trace σ ++ [EvPost url ctype body (fst res)] |}).
Proof.
  unfold Post. unfold_monad. destruct (darkflow env (trace σ) (fs σ) url ctype body).
  reflexivity.
Qed.

Lemma ReadDir_run env name σ :
  ∃ res, ReadDir env name σ =
    (res, {| fs := fs σ; rw := rw σ; trace := trace σ ++ [EvReadDir name res] |})
    ∧ (∀ names, res = inl names → names = list_dir (fs σ) name).
Proof.
  unfold ReadDir. unfold_monad.
  destruct (os_fault env (trace σ) (OpReadDir name)) as [e|].
  - eexists; split; [reflexivity | discriminate].
  - destruct (is_dir (fs σ) name); eexists; (split; [reflexivity|]); congruence.
Qed.

(** ** The response helpers *)

Lemma setupResponse_new σ :
  rw σ = new_writer →
  setupResponse σ =
  (tt, {| fs := fs σ;
          rw := {| rw_header := cors_header; rw_status := None; rw_sent := ∅; rw_body := [] |};
          trace := trace σ |}).
Proof. destruct σ as [f w tr]. cbn. intros ->. reflexivity. Qed.

Lemma jsonResponse_new env status payload σ :
  rw σ = new_writer →
  jsonResponse env status payload σ =
  (tt, {| fs := fs σ;
          rw := answered status payload (write_result env status (trace σ) payload);
          trace := trace σ ++ [EvWrite payload (write_result env status (trace σ) payload)] |}).
Proof.
  destruct σ as [f w tr]. cbn [rw fs trace]. intros ->.
  unfold jsonResponse, answered. unfold_monad. rewrite setupResponse_new by reflexivity.
  unfold Encode, WriteHeader, Header_Set. unfold_monad.
  cbn [rw rw_status rw_header rw_sent rw_body fs trace].
  destruct (write_result env status tr payload); reflexivity.
Qed.

Lemma write_result_allowed env status tr payload :
  bodyAllowedForStatus status = true →
  write_result env status tr payload = client_write env tr payload.
Proof. unfold write_result. now intros ->. Qed.

(** ** The fetcher and the download loop *)

Lemma wget_cases env from to σ :
  (∃ e, wget env from to σ =
        (Some ("could not wget image: " +:+ e),
         {| fs := fs σ; rw := rw σ; trace := trace σ ++ [EvGet from (inr e)] |}))
  ∨ (∃ resp e, wget env from to σ =
        (Some e,
         {| fs := fs σ; rw := rw σ;
            trace := trace σ ++ [EvGet from (inl resp); EvCreate to (Some e)] |}))
  ∨ (∃ resp w e, wget env from to σ =
        (Some e,
         {| fs := <[to := File w]> (<[to := File ""]> (fs σ)); rw := rw σ;
            trace := trace σ ++ [EvGet from (inl resp); EvCreate to None;
                                 EvCopy to w (Some e)] |}))
  ∨ (∃ resp, wget env from to σ =
        (None,
         {| fs := <[to := File (Body resp)]> (<[to := File ""]> (fs σ)); rw := rw σ;
            trace := trace σ ++ [EvGet from (inl resp); EvCreate to None;
                                 EvCopy to (Body resp) None] |})).
Proof.
  unfold wget. unfold_monad. rewrite Get_run.
  destruct (http_get env (trace σ) from) as [resp|e].
  2: { left. exists e. reflexivity. }
  right.
  match goal with |- context [Create env to ?s] =>
    destruct (Create_run env to s) as [[e|] ->] end; cbn [fs rw trace].
  { left. exists resp, e. now rewrite <- app_assoc. }
  right.
  match goal with |- context [Copy env to resp ?s] =>
    destruct (Copy_run env to resp s) as (w & err & -> & Hw) end; cbn [fs rw trace].
  destruct err as [e|].
  - left. exists resp, w, e. now rewrite <- !app_assoc.
  - right. exists resp. rewrite (Hw eq_refl). now rewrite <- !app_assoc.
Qed.

Lemma downloaded_refl input i f : downloaded input i [] f f.
Proof. split; [intros ? ? H; inversion H | reflexivity]. Qed.

Lemma download_spec env input urls :
  ∀ i σ, ∃ evs,
    rw (snd (download env input urls i σ)) = rw σ
    ∧ trace (snd (download env input urls i σ)) = trace σ ++ evs
    ∧ fetched input i urls evs (fst (download env input urls i σ))
    ∧ downloaded input i evs (fs σ) (fs (snd (download env input urls i σ))).
Proof.
  induction urls as [|url urls IH]; intros i σ.
  { exists []. cbn. rewrite app_nil_r.
    refine (conj _ (conj _ (conj _ _)));
      [reflexivity | reflexivity | constructor | apply downloaded_refl]. }
  cbn [download]. unfold_monad.
  destruct (wget_cases env url (Join [input; jpg_name i]) σ)
    as [(e & ->) | [(resp & e & ->) | [(resp & w & e & ->) | (resp & ->)]]];
    cbn [fst snd fs rw trace].
  - exists [EvGet url (inr e)]. refine (conj _ (conj _ (conj _ _)));
      [reflexivity | reflexivity | constructor |].
    split; [intros ? ? H; inversion H | reflexivity].
  - eexists. refine (conj _ (conj _ (conj _ _)));
      [reflexivity | reflexivity | constructor |].
    split; [intros ? ? H; inversion H | reflexivity].
  - eexists. refine (conj _ (conj _ (conj _ _)));
      [reflexivity | reflexivity | constructor |].
    split; [intros ? ? H; inversion H |].
    intros p Hp. rewrite !lookup_insert_ne by (apply not_eq_sym, Hp; lia). reflexivity.
  - match goal with |- context [download env input urls (S i) ?s] =>
      destruct (IH (S i) s) as (evs & Hrw & Htr & Hf & Hcop & Hframe) end.
    cbn [fs rw trace] in *.
    exists (EvGet url (inl resp) :: EvCreate (Join [input; jpg_name i]) None
            :: EvCopy (Join [input; jpg_name i]) (Body resp) None :: evs).
    split; [|split; [|split]].
    + assumption.
    + rewrite Htr, <- app_assoc. reflexivity.
    + now constructor.
    + split.
      * intros name w Hin. cbn in Hin. apply elem_of_cons in Hin as [[= -> ->] | Hin].
        -- rewrite Hframe.
           ++ now rewrite lookup_insert_eq.
           ++ intros k Hk E%job_file_inj. lia.
        -- now apply Hcop.
      * intros p Hp. rewrite Hframe by (intros k Hk; apply Hp; lia).
        rewrite !lookup_insert_ne by (apply not_eq_sym, Hp; lia). reflexivity.
Qed.

(** ** Every request ends in one of the outcomes *)

Lemma job_id_run env f :
  generateID env 8 (start f) =
  (job_id env, {| fs := f; rw := new_writer; trace := [rand_event env] |}).
Proof. reflexivity. Qed.

Lemma not_validated r :
  Method r ≠ MethodOptions →
  is_error (snd (Decode (ReqBody r)))
  || bool_decide (length (ImageURLs (fst (Decode (ReqBody r)))) = 0%nat) = true →
  ¬ validated r.
Proof.
  intros _ H (_ & Herr & Hne). rewrite Herr in H. cbn in H.
  apply bool_decide_eq_true in H. destruct (ImageURLs _); [congruence | discriminate].
Qed.

Lemma is_validated r :
  Method r ≠ MethodOptions →
  is_error (snd (Decode (ReqBody r)))
  || bool_decide (length (ImageURLs (fst (Decode (ReqBody r)))) = 0%nat) = false →
  validated r.
Proof.
  intros Hm [He Hl]%orb_false_iff. repeat split; [assumption | |].
  - destruct (snd _); [discriminate | reflexivity].
  - apply bool_decide_eq_false in Hl. intros E. now rewrite E in Hl.
Qed.

Theorem serve_outcome env cfg r f : outcome env cfg r f (serve env cfg r f).
Proof.
  unfold serve, recognize.
  destruct (bool_decide_reflect (Method r = MethodOptions)) as [Hm|Hm].
  { rewrite setupResponse_new by reflexivity. now apply out_options. }
  destruct (Decode (ReqBody r)) as [req err] eqn:Hdec.
  destruct (is_error err || bool_decide (length (ImageURLs req) = 0%nat)) eqn:Hbad.
  { unfold jsonError. rewrite jsonResponse_new by reflexivity.
    eapply out_rejected; cbn [fs rw trace]; rewrite ?Hdec; try reflexivity; [assumption|].
    apply not_validated; [assumption|]. now rewrite Hdec. }
  assert (validated r) as Hval by (apply is_validated; [assumption | now rewrite Hdec]).
  assert (urls_of r = ImageURLs req) as Hurls by (unfold urls_of; now rewrite Hdec).
  unfold_monad. rewrite job_id_run.
  fold (job_input env cfg). fold (job_output env cfg).
  match goal with |- context [Mkdir env ?n ?s] =>
    destruct (Mkdir_run env n s) as [[e|] ->] end; cbn [fs rw trace].
  { unfold jsonError. rewrite jsonResponse_new by reflexivity.
    eapply out_mkdir_failed; try reflexivity. assumption. }
  match goal with |- context [download env ?i ?u 0%nat ?s] =>
    destruct (download_spec env i u 0%nat s) as (evs & Hrw & Htr & Hf & Hd);
    destruct (download env i u 0%nat s) as [derr σd] end.
  cbn [fst snd fs rw trace] in *. rewrite <- Hurls in Hf.
  destruct σd as [fd wd trd]. cbn [fs rw trace] in *. subst wd trd.
  destruct derr as [e|].
  { unfold jsonError. rewrite jsonResponse_new by reflexivity.
    eapply out_download_failed; try eassumption; reflexivity. }
  cbn [Encode_buffer]. fold (darkflow_body env cfg). rewrite Post_run. cbn [fs rw trace].
  change (([rand_event env] ++ [EvMkdir (job_input env cfg) None]) ++ evs)
    with (job_trace env cfg evs).
  destruct (darkflow env (job_trace env cfg evs) fd (darkflowURL cfg) "application/json"
              (darkflow_body env cfg)) as [[code|e] f2] eqn:Hdf; cbn [fst snd].
  2: { unfold jsonError. rewrite jsonResponse_new by reflexivity. cbn [fst snd fs rw trace].
       rewrite <- app_assoc. eapply out_post_failed; try eassumption; reflexivity. }
  destruct (bool_decide_reflect (code ≠ StatusOK)) as [Hc|Hc].
  { unfold jsonError. rewrite jsonResponse_new by reflexivity. cbn [fst snd fs rw trace].
    eapply out_post_status; try eassumption; reflexivity. }
  assert (code = StatusOK) as -> by (destruct (decide (code = StatusOK)); tauto).
  match goal with |- context [ReadDir env ?n ?s] =>
    destruct (ReadDir_run env n s) as (res & -> & Hres) end; cbn [fs rw trace] in *.
  destruct res as [names|e].
  - rewrite (Hres names eq_refl). rewrite jsonResponse_new by reflexivity.
    cbn [fst snd fs rw trace]. rewrite <- !app_assoc.
    eapply out_ok; try eassumption; reflexivity.
  - unfold jsonError. rewrite jsonResponse_new by reflexivity. cbn [fst snd fs rw trace].
    rewrite <- !app_assoc. eapply out_readdir_failed; try eassumption; reflexivity.
Qed.

(** ** The identifier generator *)

Lemma job_id_hex env : str_all is_lower_hex (job_id env) = true.
Proof. unfold job_id. rewrite generateID_run. cbn [fst]. apply str_all_take, EncodeToString_hex. Qed.

Lemma job_id_length env : String.length (job_id env) = 8%nat.
Proof.
  unfold job_id. rewrite generateID_run. cbn [fst].
  rewrite str_take_length, EncodeToString_length, fill_length, make_bytes_length.
  reflexivity.
Qed.

Lemma job_id_ok env : entry_name_ok (job_id env) = true.
Proof.
  apply hex_entry_name_ok; [apply job_id_hex|].
  intros E. pose proof (job_id_length env) as H. rewrite E in H. discriminate.
Qed.

(** C7. For a length of at least 1, [generateID] returns exactly that many
    characters, all lower-case hexadecimal digits: the first [len] digits
    of the hexadecimal encoding of the buffer that the one read of the
    random source filled.  The handler calls it with length 8: a validated
    request starts by reading 4 random bytes and makes the directory named
    by the 8 digits. *)
Theorem generateID_hex_of_random env len σ :
  1 ≤ len →
  let n := Z.to_nat ((len - 1) ÷ 2 + 1) in
  let data := rand_source env (trace σ) n in
  let id := fst (generateID env len σ) in
  String.length id = Z.to_nat len
  ∧ str_all is_lower_hex id = true
  ∧ id = str_take (Z.to_nat len) (EncodeToString (fill (make_bytes ((len - 1) ÷ 2 + 1)) data))
  ∧ (length data = n → id = str_take (Z.to_nat len) (EncodeToString data))
  ∧ trace (snd (generateID env len σ)) = trace σ ++ [EvRand n data]
  ∧ (∀ cfg r f, validated r →
       ∃ merr rest,
         trace (serve env cfg r f)
         = EvRand 4 (rand_source env [] 4)
             :: EvMkdir (Join [inputDir cfg; fst (generateID env 8 (start f))]) merr :: rest).
Proof.
  intros Hlen n data id. subst id. rewrite generateID_run. cbn [fst snd]. fold n. fold data.
  split_and!.
  - rewrite str_take_length, EncodeToString_length, fill_length, make_bytes_length.
    pose proof (buffer_size len Hlen). lia.
  - apply str_all_take, EncodeToString_hex.
  - reflexivity.
  - intros Hdata. rewrite fill_full; [reflexivity|]. now rewrite make_bytes_length.
  - reflexivity.
  - intros cfg r f Hval. rewrite job_id_run. cbn [fst].
    fold (job_input env cfg).
    destruct (serve_outcome env cfg r f) as
      [Hm _ _ _ | werr Hm Hnv _ _ _ _ | e werr _ p Htr _ _ | evs e werr _ _ _ Htr _
      | evs fd e werr _ _ _ _ p Htr _ | evs fd code werr _ _ _ _ _ p tr _ Htr _
      | evs fd e werr _ _ _ _ p Htr _ | evs fd werr _ _ _ _ names p Htr _].
    + now destruct Hval.
    + contradiction.
    + rewrite Htr. eauto.
    + rewrite Htr. unfold job_trace. cbn [app]. eauto.
    + rewrite Htr. unfold job_trace. cbn [app]. eauto.
    + rewrite Htr. unfold job_trace. cbn [app]. eauto.
    + rewrite Htr. unfold job_trace. cbn [app]. eauto.
    + rewrite Htr. unfold job_trace. cbn [app]. eauto.
Qed.

Lemma generateID_hex_of_random_witness :
  1 ≤ 8
  ∧ String.length (fst (generateID sample_env 8 (start roots))) = 8%nat
  ∧ str_all is_lower_hex (fst (generateID sample_env 8 (start roots))) = true.
Proof.
  split; [lia|].
  pose proof (generateID_hex_of_random sample_env 8 (start roots) ltac:(lia)) as H.
  cbv zeta in H. split; [exact (proj1 H) | exact (proj1 (proj2 H))].
Defined.

(** ** The fetcher *)

(** C10. [wget] does not look at the status code of the response.  It
    reports success exactly when the GET delivered a response, the file
    was created and the whole body was copied, and then the file holds the
    body, whatever the status (a 404 or 500 page as well).  When it
    reports an error, the last call it made is the one that failed: the
    GET, the creation of the file or the copy.  Whenever the GET delivers
    a response and neither the creation nor the copy fails, it succeeds. *)
Theorem wget_ignores_status env from to σ :
  let err := fst (wget env from to σ) in
  let σ' := snd (wget env from to σ) in
  (err = None →
     ∃ resp, http_get env (trace σ) from = inl resp
       ∧ trace σ' = trace σ ++ [EvGet from (inl resp); EvCreate to None;
                                EvCopy to (Body resp) None]
       ∧ fs σ' !! to = Some (File (Body resp)))
  ∧ (err ≠ None →
     ∃ pre ev, trace σ' = trace σ ++ pre ++ [ev] ∧ fetch_failed ev = true
       ∧ Forall (λ e, fetch_failed e = false) pre)
  ∧ (∀ resp,
       http_get env (trace σ) from = inl resp →
       os_fault env (trace σ ++ [EvGet from (inl resp)]) (OpCreate to) = None →
       is_dir (fs σ) to = false →
       write_fault env (trace σ ++ [EvGet from (inl resp); EvCreate to None]) to = None →
       BodyErr resp = None →
       err = None ∧ fs σ' !! to = Some (File (Body resp))).
Proof.
  intros err σ'. subst err σ'. split_and!.
  - destruct (wget_cases env from to σ)
      as [(e & E) | [(resp & e & E) | [(resp & w & e & E) | (resp & E)]]];
      rewrite E; cbn [fst snd fs trace]; try discriminate.
    intros _. exists resp. split_and!; [|reflexivity|apply lookup_insert_eq].
    unfold wget in E. revert E. unfold_monad. rewrite Get_run.
    destruct (http_get env (trace σ) from) as [resp'|e]; [|discriminate].
    match goal with |- context [Create env to ?s] =>
      destruct (Create_run env to s) as [[e|] ->] end; [discriminate|].
    match goal with |- context [Copy env to resp' ?s] =>
      destruct (Copy_run env to resp' s) as (w & err & -> & Hw) end.
    cbn [fs rw trace]. rewrite <- !app_assoc. cbn [app].
    intros [= -> Hfs Htr]. apply app_inv_head in Htr. now injection Htr as ->.
  - destruct (wget_cases env from to σ)
      as [(e & E) | [(resp & e & E) | [(resp & w & e & E) | (resp & E)]]];
      rewrite E; cbn [fst snd fs trace]; try congruence; intros _.
    + exists [], (EvGet from (inr e)). repeat constructor.
    + exists [EvGet from (inl resp)], (EvCreate to (Some e)). repeat constructor.
    + exists [EvGet from (inl resp); EvCreate to None], (EvCopy to w (Some e)).
      repeat constructor.
  - intros resp Hget Hfault Hdir Hwrite Hbody.
    unfold wget. unfold_monad. rewrite Get_run, Hget.
    unfold Create, Copy. unfold_monad. cbn [fs rw trace]. rewrite Hfault, Hdir.
    cbn [fs rw trace]. rewrite <- app_assoc. cbn [app]. rewrite Hwrite, Hbody.
    cbn [fst snd fs]. split; [reflexivity | apply lookup_insert_eq].
Qed.

(** ** The response helpers *)

(** C9, at a request for which the recognition service answers 204 No
    Content.  The handler sends status 204; a response with that status
    has no body, so the write of the reason fails; the call
    [WriteHeader(500)] that follows changes nothing, since the status line
    was sent: the client gets 204 with no body, not 500.  The same happens
    with any status when the client has gone: for an empty request body
    the status stays 400. *)
Theorem encode_failure_keeps_status :
  let σ := serve env_no_content default_config two_images roots in
  let σ' := serve env_client_gone default_config (post_request "") roots in
  rw_status (rw σ) = Some 204
  ∧ rw_body (rw σ) = []
  ∧ last (trace σ)
    = Some (EvWrite (marshal_reason "darkflow returned error") (Some ErrBodyNotAllowed))
  ∧ rw_status (rw σ') = Some StatusBadRequest
  ∧ rw_body (rw σ') = []
  ∧ trace σ' = [EvWrite (marshal_reason "invalid json body: EOF") (Some "write: broken pipe")].
Proof. cbv zeta. split_and!; vm_compute; reflexivity. Qed.

(** The same for every response: when the write of the payload fails, the
    status sent is the one [jsonResponse] was called with, and no body is
    sent. *)
Lemma jsonResponse_write_fails env status payload σ e :
  rw σ = new_writer →
  write_result env status (trace σ) payload = Some e →
  rw_status (rw (snd (jsonResponse env status payload σ))) = Some status
  ∧ rw_body (rw (snd (jsonResponse env status payload σ))) = [].
Proof.
  intros Hw He. rewrite jsonResponse_new by assumption. cbn [snd rw]. rewrite He.
  split; reflexivity.
Qed.

(** ** The check of the body *)

Lemma no_first_value body : first_value body = None → snd (Decode body) ≠ None.
Proof.
  intros H. unfold Decode. destruct (bool_decide (skip_space body = "")); [discriminate|].
  rewrite H. discriminate.
Qed.

(** A body that is decoded without an error is not valid JSON only when
    text follows its first value. *)
Lemma decoded_but_invalid body :
  snd (Decode body) = None → Valid body = false →
  ∃ v rest, first_value body = Some (v, rest) ∧ skip_space rest ≠ "".
Proof.
  unfold Decode, Valid. destruct (bool_decide (skip_space body = "")); [discriminate|].
  destruct (first_value body) as [[v rest]|]; [|discriminate].
  intros _ H%bool_decide_eq_false. eauto.
Qed.

(** C2, as amended.  For a request other than OPTIONS, when the body does
    not start with a JSON value, or its first value does not decode into
    the request, or decodes to a missing or empty [image_urls], the
    handler sends status 400 and writes a JSON object with a reason; it
    makes no other call (no read of the random source, no directory, no
    GET, no POST) and leaves the file system as it was. *)
Theorem bad_body_rejected env cfg r f :
  Method r ≠ MethodOptions →
  first_value (ReqBody r) = None
  ∨ snd (Decode (ReqBody r)) ≠ None
  ∨ ImageURLs (fst (Decode (ReqBody r))) = [] →
  let σ := serve env cfg r f in
  rw_status (rw σ) = Some StatusBadRequest
  ∧ (∃ msg werr,
       trace σ = [EvWrite (JObject [("reason", JString msg)]) werr]
       ∧ (werr = None → rw_body (rw σ) = [JObject [("reason", JString msg)]]))
  ∧ fs σ = f.
Proof.
  intros Hm Hbad σ. subst σ.
  assert (¬ validated r) as Hnv.
  { intros (_ & Herr & Hne). destruct Hbad as [H | [H | H]]; try contradiction.
    now apply no_first_value in H. }
  destruct (serve_outcome env cfg r f) as
    [Hm' _ _ _ | werr _ _ p Htr Hfs Hrw | e werr Hval _ _ _ _ | evs e werr Hval _ _ _ _
    | evs fd e werr Hval _ _ _ _ _ _ | evs fd code werr Hval _ _ _ _ _ _ _ _ _
    | evs fd e werr Hval _ _ _ _ _ _ | evs fd werr Hval _ _ _ _ _ _ _];
    try contradiction.
  rewrite Hrw, Htr, Hfs. split_and!; [reflexivity | | reflexivity].
  eexists _, werr. split; [reflexivity|]. intros ->. reflexivity.
Qed.

Lemma bad_body_rejected_witness :
  let r := no_images in
  let σ := serve sample_env default_config r roots in
  Method r ≠ MethodOptions
  ∧ (first_value (ReqBody r) = None
     ∨ snd (Decode (ReqBody r)) ≠ None
     ∨ ImageURLs (fst (Decode (ReqBody r))) = [])
  ∧ rw_status (rw σ) = Some StatusBadRequest
  ∧ (∃ msg werr,
       trace σ = [EvWrite (JObject [("reason", JString msg)]) werr]
       ∧ (werr = None → rw_body (rw σ) = [JObject [("reason", JString msg)]]))
  ∧ fs σ = roots.
Proof.
  assert (Method no_images ≠ MethodOptions) as Hm
    by discriminate.
  assert (first_value (ReqBody no_images) = None
          ∨ snd (Decode (ReqBody no_images)) ≠ None
          ∨ ImageURLs (fst (Decode (ReqBody no_images))) = [])
    as Hbad by (right; right; reflexivity).
  split; [exact Hm|]. split; [exact Hbad|].
  exact (bad_body_rejected sample_env default_config _ roots Hm Hbad).
Defined.

(** C2 as stated fails: this body is not valid JSON (a bracket follows the
    object), yet the decoder reads the object that comes first, and the
    handler makes the job directory, fetches the image, calls the service
    and answers 200. *)
Lemma trailing_text_accepted :
  let r := trailing_text in
  let σ := serve sample_env default_config r roots in
  Method r ≠ MethodOptions
  ∧ Valid (ReqBody r) = false
  ∧ rw_status (rw σ) = Some StatusOK
  ∧ mkdirs (trace σ) = ["/input/abababab"]
  ∧ gets (trace σ) = ["http://a/1.png"]
  ∧ length (posts (trace σ)) = 1%nat.
Proof. cbv zeta. split_and!; [discriminate | vm_compute; reflexivity ..]. Qed.

(** ** Shapes of traces *)

Lemma fetched_is_fetch input i urls evs err :
  fetched input i urls evs err → Forall (λ ev, is_fetch ev = true) evs.
Proof. induction 1; repeat constructor; assumption. Qed.

(** The loop without an error: every URL was requested in turn, and the
    file of every position was created and written in full. *)
Lemma fetched_ok input i urls evs :
  fetched input i urls evs None →
  gets evs = urls
  ∧ creates evs = map (λ k, Join [input; jpg_name k]) (seq i (length urls))
  ∧ map fst (copied evs) = map (λ k, Join [input; jpg_name k]) (seq i (length urls))
  ∧ Forall (λ ev, fetch_failed ev = false) evs.
Proof.
  intros H. remember None as err eqn:E. induction H; try discriminate.
  - repeat split; constructor.
  - destruct (IHfetched E) as (Hg & Hc & Hw & Hf). cbn.
    fold (gets evs). fold (creates evs). fold (copied evs).
    rewrite Hg, Hc, Hw. repeat split. repeat constructor. assumption.
Qed.

(** The loop with an error: it ends with the failing step of some position
    [i + j]; the URLs up to that position were requested, and the files of
    the positions before it were written in full. *)
Lemma fetched_failed input i urls evs e :
  fetched input i urls evs (Some e) →
  ∃ j pre ev,
    evs = pre ++ [ev] ∧ fetch_failed ev = true
    ∧ Forall (λ ev, fetch_failed ev = false) pre
    ∧ (j < length urls)%nat
    ∧ gets evs = take (S j) urls
    ∧ map fst (copied evs) = map (λ k, Join [input; jpg_name k]) (seq i j).
Proof.
  intros H. remember (Some e) as err eqn:E. induction H; try discriminate.
  - exists 0%nat, [], (EvGet url (inr e0)). cbn. rewrite take_0.
    repeat split; [constructor | lia].
  - exists 0%nat, [EvGet url (inl resp)], (EvCreate (Join [input; jpg_name i]) (Some e0)).
    cbn. rewrite take_0. repeat split; [repeat constructor | lia].
  - exists 0%nat, [EvGet url (inl resp); EvCreate (Join [input; jpg_name i]) None],
      (EvCopy (Join [input; jpg_name i]) w (Some e0)).
    cbn. rewrite take_0. repeat split; [repeat constructor | lia].
  - destruct (IHfetched E) as (j & pre & ev & -> & Hev & Hpre & Hj & Hg & Hw).
    exists (S j), (EvGet url (inl resp) :: EvCreate (Join [input; jpg_name i]) None
                   :: EvCopy (Join [input; jpg_name i]) (Body resp) None :: pre), ev.
    cbn. fold (gets (pre ++ [ev])). fold (copied (pre ++ [ev])). rewrite Hg, Hw.
    repeat split; [assumption | repeat constructor; assumption | lia].
Qed.

Lemma gets_app a b : gets (a ++ b) = gets a ++ gets b.
Proof. apply omap_app. Qed.

Lemma copied_app a b : copied (a ++ b) = copied a ++ copied b.
Proof. apply omap_app. Qed.

Lemma creates_app a b : creates (a ++ b) = creates a ++ creates b.
Proof. apply omap_app. Qed.

Lemma posts_app a b : posts (a ++ b) = posts a ++ posts b.
Proof. apply omap_app. Qed.

Lemma mkdirs_app a b : mkdirs (a ++ b) = mkdirs a ++ mkdirs b.
Proof. apply omap_app. Qed.

Lemma fetch_no_posts evs : Forall (λ ev, is_fetch ev = true) evs → posts evs = [].
Proof. induction 1 as [|ev evs H _ IH]; [reflexivity|]. destruct ev; try discriminate; exact IH. Qed.

Lemma fetch_no_mkdirs evs : Forall (λ ev, is_fetch ev = true) evs → mkdirs evs = [].
Proof. induction 1 as [|ev evs H _ IH]; [reflexivity|]. destruct ev; try discriminate; exact IH. Qed.

Lemma posts_job_trace env cfg evs :
  Forall (λ ev, is_fetch ev = true) evs → posts (job_trace env cfg evs) = [].
Proof. intros H. unfold job_trace. cbn. now apply fetch_no_posts. Qed.

Lemma gets_job_trace env cfg evs : gets (job_trace env cfg evs) = gets evs.
Proof. reflexivity. Qed.

Lemma copied_job_trace env cfg evs : copied (job_trace env cfg evs) = copied evs.
Proof. reflexivity. Qed.

(** ** The listing of a directory *)

Lemma list_dir_names_ok f dir :
  Forall (λ name, entry_name_ok name = true) (list_dir f dir).
Proof.
  unfold list_dir. rewrite merge_sort_Permutation. apply Forall_forall.
  intros name (path & _ & H)%list_elem_of_omap. unfold entry_of in H.
  destruct (strip_prefix _ _) as [n|]; [|discriminate].
  destruct (entry_name_ok n) eqn:E; [|discriminate]. now injection H as <-.
Qed.

(** The listing is in the order of the names. *)
Lemma list_dir_sorted f dir : StronglySorted String.le (list_dir f dir).
Proof. unfold list_dir. apply StronglySorted_merge_sort; apply _. Qed.

Lemma output_path env name :
  entry_name_ok name = true →
  Join ["/output"; job_id env; name] = "/output/" +:+ job_id env +:+ "/" +:+ name.
Proof.
  intros H. rewrite Join_entry2; [reflexivity | discriminate | apply job_id_ok | assumption].
Qed.

Lemma image_paths_literal env f dir :
  map JString (image_paths env (list_dir f dir))
  = map (λ name, JString ("/output/" +:+ job_id env +:+ "/" +:+ name)) (list_dir f dir).
Proof.
  unfold image_paths. rewrite map_map. apply Forall_fmap_ext_1.
  eapply Forall_impl; [apply list_dir_names_ok|]. intros name H. cbv beta.
  now rewrite output_path.
Qed.

(** ** The pipeline *)

Ltac run_cases env cfg r f :=
  destruct (serve_outcome env cfg r f) as
    [Hm Htr Hfs Hrw
    | werr Hm Hnv payload Htr Hfs Hrw
    | rerr werr Hval payload Htr Hfs Hrw
    | evs rerr werr Hval Hf Hd Htr Hrw
    | evs fd rerr werr Hval Hf Hd Hdf payload Htr Hrw
    | evs fd rcode werr Hval Hf Hd Hdf Hcode payload tr Hwerr Htr Hrw
    | evs fd rerr werr Hval Hf Hd Hdf payload Htr Hrw
    | evs fd werr Hval Hf Hd Hdf names payload Htr Hrw];
  try subst tr; try subst payload; try subst names;
  try (rewrite <- app_assoc in Htr; cbn [app] in Htr).

(** C1. A run that answered 200 with a body answered with one JSON array:
    its elements are, in the order of the listing, the paths
    [/output/<job-id>/<entry-name>] of the entries that the listing of the
    job's output directory returned, one element per entry; the listing is
    the last call before the write of the response, taken on the file
    system as the run leaves it. *)
Theorem success_lists_output env cfg r f :
  let σ := serve env cfg r f in
  successful σ →
  let names := list_dir (fs σ) (job_output env cfg) in
  let elems := map (λ name, JString ("/output/" +:+ job_id env +:+ "/" +:+ name)) names in
  rw_body (rw σ) = [JArray elems]
  ∧ length elems = length names
  ∧ (∀ i name, names !! i = Some name →
       elems !! i = Some (JString ("/output/" +:+ job_id env +:+ "/" +:+ name)))
  ∧ (∃ pre, trace σ = pre ++ [EvReadDir (job_output env cfg) (inl names);
                              EvWrite (JArray elems) None]).
Proof.
  intros σ [Hst Hbody] names elems. subst σ names elems.
  run_cases env cfg r f; rewrite Hrw in Hst, Hbody; cbn in Hst, Hbody;
    try discriminate; try congruence.
  destruct werr as [w|]; [congruence|]. rewrite Hrw, Htr. cbn [rw_body answered].
  unfold marshal_strings. rewrite image_paths_literal. split_and!.
  - reflexivity.
  - apply length_map.
  - intros i name Hi. now rewrite list_lookup_fmap, Hi.
  - eexists (job_trace env cfg evs ++ [_]). rewrite <- app_assoc. reflexivity.
Qed.

Lemma success_lists_output_witness :
  let σ := serve sample_env default_config two_images roots in
  successful σ
  ∧ rw_body (rw σ)
    = [JArray (map (λ name, JString ("/output/" +:+ job_id sample_env +:+ "/" +:+ name))
                 (list_dir (fs σ) (job_output sample_env default_config)))].
Proof.
  assert (successful (serve sample_env default_config two_images roots)) as Hs.
  { split; [reflexivity | vm_compute; discriminate]. }
  split; [exact Hs|].
  exact (proj1 (success_lists_output sample_env default_config two_images roots Hs)).
Defined.

Lemma not_in_fetch ev evs :
  Forall (λ ev, is_fetch ev = true) evs → is_fetch ev = false → ev ∉ evs.
Proof.
  intros Hall Hev Hin. rewrite Forall_forall in Hall. apply Hall in Hin. congruence.
Qed.




Lemma no_failure_in_job_trace env cfg evs ev :
  Forall (λ ev, fetch_failed ev = false) evs → ev ∈ job_trace env cfg evs →
  fetch_failed ev = false.
Proof.
  intros Hall Hin. unfold job_trace in Hin.
  apply elem_of_cons in Hin as [->|Hin]; [reflexivity|].
  apply elem_of_cons in Hin as [->|Hin]; [reflexivity|].
  rewrite Forall_forall in Hall. now apply Hall.
Qed.

Lemma no_mkdir_error_in_job_trace env cfg evs ev name e :
  Forall (λ ev, is_fetch ev = true) evs → ev ∈ job_trace env cfg evs →
  ev ≠ EvMkdir name (Some e).
Proof.
  intros Hall Hin. unfold job_trace in Hin.
  apply elem_of_cons in Hin as [->|Hin]; [discriminate|].
  apply elem_of_cons in Hin as [->|Hin]; [discriminate|].
  rewrite Forall_forall in Hall. apply Hall in Hin. intros ->. discriminate.
Qed.

(** C6. A request leads to at most one POST, and that POST goes to the
    configured URL with content type [application/json] and, as body, the
    JSON object with the two keys [input_dir] and [output_dir], valued
    with the job's input and output directory.  It is sent exactly for a
    validated request whose directory was made and whose downloads all
    succeeded.  For a root that is a clean path, the directory of the job
    under it is [<root>/<job-id>]. *)
Theorem one_post_per_job env cfg r f :
  let σ := serve env cfg r f in
  let request :=
    (darkflowURL cfg, "application/json",
     JObject [("input_dir", JString (Join [inputDir cfg; job_id env]));
              ("output_dir", JString (Join [outputDir cfg; job_id env]))]) in
  (posts (trace σ) = [] ∨ posts (trace σ) = [request])
  ∧ (posts (trace σ) = [request]
     ↔ validated r
       ∧ ∀ ev, ev ∈ trace σ →
           fetch_failed ev = false ∧ ∀ name e, ev ≠ EvMkdir name (Some e))
  ∧ (∀ root, Clean root = root → root ≠ "/" → root ≠ "." →
       Join [root; job_id env] = root +:+ "/" +:+ job_id env).
Proof.
  intros σ request. subst σ request.
  match goal with |- ?A ∧ ?B ∧ ?C =>
    enough (A ∧ B) as [HA HB]
      by (split_and!; [exact HA | exact HB |];
          intros root ? ? ?; apply Join_entry_clean; auto using job_id_ok)
  end.
  run_cases env cfg r f; rewrite Htr;
    try pose proof (fetched_is_fetch _ _ _ _ _ Hf) as Hfe;
    rewrite ?posts_app, ?posts_job_trace by assumption.
  - split; [now left|]. split; [discriminate|]. intros [(Hm' & _) _]. contradiction.
  - split; [now left|]. split; [discriminate|]. intros [Hv _]. contradiction.
  - split; [now left|]. split; [discriminate|]. intros [_ Hall].
    destruct (Hall (EvMkdir (job_input env cfg) (Some rerr))) as [_ Hne].
    { apply elem_of_cons. right. apply elem_of_cons. now left. }
    now contradiction (Hne _ _ eq_refl).
  - split; [now left|]. split; [discriminate|]. intros [_ Hall].
    destruct (fetched_failed _ _ _ _ _ Hf) as (j & pre & ev & -> & Hev & _).
    destruct (Hall ev) as [Hno _]; [|congruence].
    apply elem_of_app. left. unfold job_trace.
    do 2 (apply elem_of_cons; right). apply elem_of_app. right. apply elem_of_cons. now left.
  - split; [now right|]. split; [|reflexivity]. intros _. split; [assumption|].
    intros ev [Hin|Hin]%elem_of_app.
    + split; [eapply no_failure_in_job_trace; [apply (fetched_ok _ _ _ _ Hf) | eassumption]|].
      intros. eapply no_mkdir_error_in_job_trace; eassumption.
    + repeat (apply elem_of_cons in Hin as [->|Hin]; [split; [reflexivity | discriminate]|]).
      inversion Hin.
  - split; [now right|]. split; [|reflexivity]. intros _. split; [assumption|].
    intros ev [Hin|Hin]%elem_of_app.
    + split; [eapply no_failure_in_job_trace; [apply (fetched_ok _ _ _ _ Hf) | eassumption]|].
      intros. eapply no_mkdir_error_in_job_trace; eassumption.
    + repeat (apply elem_of_cons in Hin as [->|Hin]; [split; [reflexivity | discriminate]|]).
      inversion Hin.
  - split; [now right|]. split; [|reflexivity]. intros _. split; [assumption|].
    intros ev [Hin|Hin]%elem_of_app.
    + split; [eapply no_failure_in_job_trace; [apply (fetched_ok _ _ _ _ Hf) | eassumption]|].
      intros. eapply no_mkdir_error_in_job_trace; eassumption.
    + repeat (apply elem_of_cons in Hin as [->|Hin]; [split; [reflexivity | discriminate]|]).
      inversion Hin.
  - split; [now right|]. split; [|reflexivity]. intros _. split; [assumption|].
    intros ev [Hin|Hin]%elem_of_app.
    + split; [eapply no_failure_in_job_trace; [apply (fetched_ok _ _ _ _ Hf) | eassumption]|].
      intros. eapply no_mkdir_error_in_job_trace; eassumption.
    + repeat (apply elem_of_cons in Hin as [->|Hin]; [split; [reflexivity | discriminate]|]).
      inversion Hin.
Qed.

(** C3. When a step of a download fails (the GET, the creation of the file
    or the copy of the body), that step is the last call of the run before
    the write of the response, and it is the first failure: the URLs after
    that position are never requested and no POST is made.  The handler
    sends status 500 with a reason.  The files of the earlier positions,
    [0.jpg] up to the one before the failing position, were written in
    full and are in the file system, with what was written, when the run
    ends. *)
Theorem download_failure_aborts env cfg r f :
  let σ := serve env cfg r f in
  (∃ ev, ev ∈ trace σ ∧ fetch_failed ev = true) →
  ∃ j pre ev msg werr,
    trace σ = pre ++ [ev; EvWrite (JObject [("reason", JString msg)]) werr]
    ∧ fetch_failed ev = true
    ∧ Forall (λ ev, fetch_failed ev = false) pre
    ∧ rw_status (rw σ) = Some StatusInternalServerError
    ∧ (werr = None → rw_body (rw σ) = [JObject [("reason", JString msg)]])
    ∧ (j < length (urls_of r))%nat
    ∧ gets (trace σ) = take (S j) (urls_of r)
    ∧ posts (trace σ) = []
    ∧ map fst (copied (trace σ))
      = map (λ k, Join [Join [inputDir cfg; job_id env]; jpg_name k]) (seq 0 j)
    ∧ (∀ name w, (name, w) ∈ copied (trace σ) → fs σ !! name = Some (File w)).
Proof.
  intros σ (ev0 & Hin & Hfail). subst σ.
  run_cases env cfg r f; rewrite Htr in Hin;
    try (now repeat (apply elem_of_cons in Hin as [->|Hin]; [discriminate|]);
         inversion Hin).
  2-5: apply elem_of_app in Hin as [Hin|Hin];
    [ apply (no_failure_in_job_trace _ _ _ _ (proj2 (proj2 (proj2 (fetched_ok _ _ _ _ Hf)))))
        in Hin; congruence
    | now repeat (apply elem_of_cons in Hin as [->|Hin]; [discriminate|]); inversion Hin ].
  clear Hin Hfail ev0.
  pose proof (fetched_is_fetch _ _ _ _ _ Hf) as Hfe.
  destruct (fetched_failed _ _ _ _ _ Hf) as (j & pre & ev & -> & Hev & Hpre & Hj & Hg & Hw).
  destruct Hd as [Hcop _].
  exists j, (job_trace env cfg pre), ev, rerr, werr.
  rewrite Htr, Hrw. cbn [rw_status rw_body answered].
  rewrite gets_app, copied_app, posts_app, posts_job_trace, gets_job_trace,
    copied_job_trace, !app_nil_r by assumption.
  split_and!; try reflexivity; try assumption.
  - unfold job_trace. cbn [app]. now rewrite <- app_assoc.
  - unfold job_trace. repeat constructor; assumption.
  - intros ->. reflexivity.
Qed.

Lemma download_failure_aborts_witness :
  let σ := serve env_second_unreachable default_config two_images roots in
  (∃ ev, ev ∈ trace σ ∧ fetch_failed ev = true)
  ∧ rw_status (rw σ) = Some StatusInternalServerError
  ∧ gets (trace σ) = ["http://a/1.png"; "http://b/2.png"]
  ∧ posts (trace σ) = []
  ∧ fs σ !! "/input/abababab/0.jpg" = Some (File "image of http://a/1.png").
Proof.
  assert (∃ ev, ev ∈ trace (serve env_second_unreachable default_config two_images roots)
                ∧ fetch_failed ev = true) as Hex.
  { exists (EvGet "http://b/2.png" (inr "dial tcp: no route to host")).
    split; [|reflexivity]. apply list_elem_of_lookup. exists 5%nat. reflexivity. }
  split; [exact Hex|].
  destruct (download_failure_aborts env_second_unreachable default_config two_images roots Hex)
    as (j & pre & ev & msg & werr & _ & _ & _ & Hst & _ & _ & _ & Hp & _ & Hfs).
  split; [exact Hst|]. split; [reflexivity|]. split; [exact Hp|].
  apply Hfs. apply list_elem_of_lookup. exists 0%nat. reflexivity.
Defined.

(** C5. For a validated request the handler reads the random source and
    makes the job directory; when that succeeded, the events that follow
    are those of the download loop over the URLs in their order: for the
    URL at position [i], a GET of that URL, the creation of the file
    [i.jpg] in the job directory and the copy of the body of the response
    into that file, one URL after the other, until one step fails or the
    list ends.  When no step fails, the URLs requested are the whole list
    and the files created are [0.jpg] to [(k-1).jpg].  With an input root
    that is a clean path, the file of position [i] is
    [<input-root>/<job-id>/i.jpg]. *)
Theorem downloads_in_order env cfg r f :
  validated r →
  let σ := serve env cfg r f in
  let input := Join [inputDir cfg; job_id env] in
  let file k := Join [input; jpg_name k] in
  (∃ merr evs rest,
     trace σ = rand_event env :: EvMkdir input merr :: evs ++ rest
     ∧ Forall (λ ev, is_fetch ev = false) rest
     ∧ (merr ≠ None → evs = [])
     ∧ (merr = None →
        ∃ err, fetched input 0 (urls_of r) evs err
          ∧ (err = None →
             gets evs = urls_of r
             ∧ creates evs = map file (seq 0 (length (urls_of r)))
             ∧ map fst (copied evs) = map file (seq 0 (length (urls_of r))))))
  ∧ (Clean (inputDir cfg) = inputDir cfg → inputDir cfg ≠ "/" → inputDir cfg ≠ "." →
     ∀ k, file k = inputDir cfg +:+ "/" +:+ job_id env +:+ "/" +:+ itoa k +:+ ".jpg").
Proof.
  intros Hv σ input file. subst σ input file. split.
  - fold (job_input env cfg).
    run_cases env cfg r f; try (now destruct Hv); try contradiction; rewrite Htr.
    + exists (Some rerr), [], [EvWrite (marshal_reason ("could not create input dir: " +:+ rerr)) werr].
      split_and!; [reflexivity | repeat constructor | reflexivity | discriminate].
    + exists None, evs, [EvWrite (marshal_reason rerr) werr].
      split_and!; [reflexivity | repeat constructor | congruence |].
      intros _. exists (Some rerr). split; [assumption | discriminate].
    + eexists None, evs, _.
      split_and!; [reflexivity | repeat constructor | congruence |].
      intros _. exists None. split; [assumption|]. intros _.
      destruct (fetched_ok _ _ _ _ Hf) as (? & ? & ? & _). now split_and!.
    + eexists None, evs, _.
      split_and!; [reflexivity | repeat constructor | congruence |].
      intros _. exists None. split; [assumption|]. intros _.
      destruct (fetched_ok _ _ _ _ Hf) as (? & ? & ? & _). now split_and!.
    + eexists None, evs, _.
      split_and!; [reflexivity | repeat constructor | congruence |].
      intros _. exists None. split; [assumption|]. intros _.
      destruct (fetched_ok _ _ _ _ Hf) as (? & ? & ? & _). now split_and!.
    + eexists None, evs, _.
      split_and!; [reflexivity | repeat constructor | congruence |].
      intros _. exists None. split; [assumption|]. intros _.
      destruct (fetched_ok _ _ _ _ Hf) as (? & ? & ? & _). now split_and!.
  - intros Hc Hroot Hdot k.
    rewrite Join_entry_clean2 by auto using job_id_ok, jpg_name_ok. reflexivity.
Qed.

Lemma downloads_in_order_witness :
  validated two_images
  ∧ (∃ merr evs rest,
       trace (serve sample_env default_config two_images roots)
       = rand_event sample_env
           :: EvMkdir (Join [inputDir default_config; job_id sample_env]) merr :: evs ++ rest
       ∧ Forall (λ ev, is_fetch ev = false) rest
       ∧ (merr ≠ None → evs = [])
       ∧ (merr = None →
          ∃ err, fetched (Join [inputDir default_config; job_id sample_env]) 0
                   (urls_of two_images) evs err
            ∧ (err = None →
               gets evs = urls_of two_images
               ∧ creates evs
                 = map (λ k, Join [Join [inputDir default_config; job_id sample_env];
                                   jpg_name k])
                     (seq 0 (length (urls_of two_images)))
               ∧ map fst (copied evs)
                 = map (λ k, Join [Join [inputDir default_config; job_id sample_env];
                                   jpg_name k])
                     (seq 0 (length (urls_of two_images))))))
  ∧ (∀ k, Join [Join [inputDir default_config; job_id sample_env]; jpg_name k]
          = "/input" +:+ "/" +:+ job_id sample_env +:+ "/" +:+ itoa k +:+ ".jpg").
Proof.
  assert (validated two_images) as Hv.
  { split_and!; [discriminate | reflexivity | discriminate]. }
  split; [exact Hv|].
  pose proof (downloads_in_order sample_env default_config two_images roots Hv) as [H1 H2].
  split; [exact H1|].
  apply H2; [reflexivity | discriminate | discriminate].
Defined.

(** ** The output directory *)

Lemma dir_prefix_shape d : dir_prefix d = "" ∨ ∃ x, dir_prefix d = x +:+ "/".
Proof.
  unfold dir_prefix. destruct (bool_decide (d = "")); [now left|].
  destruct (fold_left _ _ _) as [|top out].
  - destruct (rooted d); [right; now exists "" | now left].
  - right. destruct (rooted d); eexists; [|reflexivity].
    rewrite <- str_app_assoc. reflexivity.
Qed.

Lemma last_snoc_segment x name :
  str_all (λ c, negb (is_slash c)) name = true →
  last (segments (x +:+ "/" +:+ name)) = Some name.
Proof.
  intros H. rewrite segments_app_slash, (segments_no_slash name) by assumption.
  apply last_snoc.
Qed.

(** The last element of a joined path is the entry name. *)
Lemma Join_entry_last d name :
  entry_name_ok name = true → last (segments (Join [d; name])) = Some name.
Proof.
  intros Hok. pose proof Hok as (_ & _ & _ & Hns)%entry_name_ok_inv.
  rewrite Join_entry by assumption.
  destruct (dir_prefix_shape d) as [-> | [x ->]].
  - change ("" +:+ name) with name. now rewrite segments_no_slash.
  - rewrite str_app_assoc. now apply last_snoc_segment.
Qed.

Lemma jpg_name_not_hex k : str_all is_lower_hex (jpg_name k) = false.
Proof. unfold jpg_name. rewrite str_all_app. apply andb_false_r. Qed.

(** No file of a job directory is at the path of an output directory. *)
Lemma job_file_not_output env d input k :
  Join [d; job_id env] ≠ Join [input; jpg_name k].
Proof.
  intros E. apply (f_equal (λ p, last (segments p))) in E.
  rewrite !Join_entry_last in E by auto using job_id_ok, jpg_name_ok.
  injection E as E. pose proof (job_id_hex env) as H. rewrite E, jpg_name_not_hex in H.
  discriminate.
Qed.

Lemma fetched_creates input i urls evs err :
  fetched input i urls evs err →
  ∀ name, name ∈ creates evs → ∃ k, name = Join [input; jpg_name k].
Proof.
  induction 1; cbn; intros name Hin;
    repeat (apply elem_of_cons in Hin as [->|Hin]; [eauto|]); try (now inversion Hin).
  now apply IHfetched.
Qed.

Lemma split_at_post (l1 l2 : list Event) x y r1 r2 :
  posts l1 = [] → posts r1 = [] → is_post y = true →
  l1 ++ x :: r1 = l2 ++ y :: r2 → is_post x = true →
  l1 = l2 ∧ x = y ∧ r1 = r2.
Proof.
  revert l2. induction l1 as [|a l1 IH]; intros [|b l2] Hl Hr Hy E Hx; cbn in E.
  - now injection E as -> ->.
  - injection E as -> ->. rewrite posts_app in Hr. destruct y; try discriminate.
    cbn in Hr. now destruct (posts l2).
  - injection E as -> _. destruct y; try discriminate.
  - injection E as -> E. destruct (IH l2) as (-> & -> & ->); auto.
    destruct b; try discriminate; exact Hl.
Qed.

Lemma tail_mkdirs env cfg evs tail :
  Forall (λ ev, is_fetch ev = true) evs → mkdirs tail = [] →
  mkdirs (job_trace env cfg evs ++ tail) = [job_input env cfg].
Proof.
  intros Hfe Ht. rewrite mkdirs_app, Ht, app_nil_r. unfold job_trace. cbn.
  fold (mkdirs evs). now rewrite fetch_no_mkdirs.
Qed.

Lemma tail_creates env cfg evs tail :
  creates tail = [] → creates (job_trace env cfg evs ++ tail) = creates evs.
Proof. intros Ht. rewrite creates_app, Ht, app_nil_r. reflexivity. Qed.

(** C8, as amended.  The handler makes at most one directory, the job's
    input directory.  When the job's output directory is another path
    than its input directory, the handler neither makes a directory nor
    creates a file at that path, and whatever is at that path is left to
    the recognition service: without a POST the path holds at the end
    what it held at the start, and with a POST it held that when the
    service was called, the file system at the end being the one the
    service left. *)
Theorem output_dir_left_to_service env cfg r f :
  let σ := serve env cfg r f in
  let input := Join [inputDir cfg; job_id env] in
  let output := Join [outputDir cfg; job_id env] in
  (mkdirs (trace σ) = [] ∨ mkdirs (trace σ) = [input])
  ∧ (output ≠ input →
     (output ∉ mkdirs (trace σ))
     ∧ (output ∉ creates (trace σ))
     ∧ (posts (trace σ) = [] → fs σ !! output = f !! output)
     ∧ (∀ pre url ct body res rest,
          trace σ = pre ++ EvPost url ct body res :: rest →
          ∃ fd, fd !! output = f !! output
                ∧ darkflow env pre fd url ct body = (res, fs σ))).
Proof.
  intros σ input output. subst σ input output.
  fold (job_input env cfg). fold (job_output env cfg).
  assert (∀ evs fd,
    job_output env cfg ≠ job_input env cfg →
    downloaded (job_input env cfg) 0 evs (<[job_input env cfg := Dir]> f) fd →
    fd !! job_output env cfg = f !! job_output env cfg) as Hframe.
  { intros evs fd Hne [_ Hfr]. rewrite Hfr by (intros; apply job_file_not_output).
    now rewrite lookup_insert_ne by auto. }
  assert (∀ evs err,
    fetched (job_input env cfg) 0 (urls_of r) evs err →
    job_output env cfg ∉ creates evs) as Hcr.
  { intros evs err Hf Hin. destruct (fetched_creates _ _ _ _ _ Hf _ Hin) as [k E].
    now apply job_file_not_output in E. }
  run_cases env cfg r f; rewrite Htr;
    try pose proof (fetched_is_fetch _ _ _ _ _ Hf) as Hfe.
  - split; [now left|]. intros Hne. rewrite Hfs.
    split_and!; [inversion 1 | inversion 1 | reflexivity |].
    intros [|? ?] ? ? ? ? ? E; discriminate.
  - split; [now left|]. intros Hne. rewrite Hfs.
    split_and!; [inversion 1 | inversion 1 | reflexivity |].
    intros [|? [|? ?]] ? ? ? ? ? E; discriminate.
  - split; [now right|]. intros Hne. rewrite Hfs.
    split_and!; [| inversion 1 | reflexivity |].
    + intros [E|Hin]%elem_of_cons; [contradiction | inversion Hin].
    + intros [|? [|? [|? [|? ?]]]] ? ? ? ? ? E; discriminate.
  - split; [right; now apply tail_mkdirs|]. intros Hne.
    rewrite tail_mkdirs, tail_creates, posts_app by (assumption || reflexivity).
    split_and!.
    + intros [E|Hin]%elem_of_cons; [contradiction | inversion Hin].
    + eauto.
    + intros _. eauto.
    + intros pre url ct body res rest E. exfalso.
      apply (f_equal posts) in E. rewrite !posts_app, posts_job_trace in E by assumption.
      cbn in E. destruct (posts pre); discriminate.
  - split; [right; now apply tail_mkdirs|]. intros Hne.
    rewrite tail_mkdirs, tail_creates, posts_app, posts_job_trace
      by (assumption || reflexivity).
    split_and!.
    + intros [E|Hin]%elem_of_cons; [contradiction | inversion Hin].
    + eauto.
    + discriminate.
    + intros pre url ct body res rest E.
      apply split_at_post in E as (<- & [= <- <- <- <-] & _);
        [| now apply posts_job_trace | reflexivity | reflexivity | reflexivity].
      exists fd. split; [eauto | assumption].
  - split; [right; now apply tail_mkdirs|]. intros Hne.
    rewrite tail_mkdirs, tail_creates, posts_app, posts_job_trace
      by (assumption || reflexivity).
    split_and!.
    + intros [E|Hin]%elem_of_cons; [contradiction | inversion Hin].
    + eauto.
    + discriminate.
    + intros pre url ct body res rest E.
      apply split_at_post in E as (<- & [= <- <- <- <-] & _);
        [| now apply posts_job_trace | reflexivity | reflexivity | reflexivity].
      exists fd. split; [eauto | assumption].
  - split; [right; now apply tail_mkdirs|]. intros Hne.
    rewrite tail_mkdirs, tail_creates, posts_app, posts_job_trace
      by (assumption || reflexivity).
    split_and!.
    + intros [E|Hin]%elem_of_cons; [contradiction | inversion Hin].
    + eauto.
    + discriminate.
    + intros pre url ct body res rest E.
      apply split_at_post in E as (<- & [= <- <- <- <-] & _);
        [| now apply posts_job_trace | reflexivity | reflexivity | reflexivity].
      exists fd. split; [eauto | assumption].
  - split; [right; now apply tail_mkdirs|]. intros Hne.
    rewrite tail_mkdirs, tail_creates, posts_app, posts_job_trace
      by (assumption || reflexivity).
    split_and!.
    + intros [E|Hin]%elem_of_cons; [contradiction | inversion Hin].
    + eauto.
    + discriminate.
    + intros pre url ct body res rest E.
      apply split_at_post in E as (<- & [= <- <- <- <-] & _);
        [| now apply posts_job_trace | reflexivity | reflexivity | reflexivity].
      exists fd. split; [eauto | assumption].
Qed.

(** C8 as stated fails when the two roots are the same directory: the job's
    output directory is then its input directory, and the handler makes
    it before the service is called. *)
Lemma shared_root_makes_output_dir :
  let σ := serve sample_env shared_config two_images {[ "/data" := Dir ]} in
  let output := Join [outputDir shared_config; job_id sample_env] in
  mkdirs (trace σ) = [output]
  ∧ trace σ !! 1%nat = Some (EvMkdir output None)
  ∧ output = "/data/abababab".
Proof. cbv zeta. split_and!; vm_compute; reflexivity. Qed.

(** ** The response, for every request *)




Lemma headers_sent_cors env cfg r f : headers_sent (serve env cfg r f) = cors_header.
Proof. unfold headers_sent. run_cases env cfg r f; rewrite Hrw; reflexivity. Qed.

(** X1. A request with the method OPTIONS is answered without a look at
    its body: the handler sets the three CORS header fields and returns.
    It makes no call at all (no read of the random source, no directory,
    no GET, no POST, no write to the client), leaves the file system as
    it was and sends no status itself, so that the server answers 200
    with an empty body. *)
Theorem options_only_sets_headers env cfg r f :
  Method r = MethodOptions →
  let σ := serve env cfg r f in
  trace σ = []
  ∧ fs σ = f
  ∧ rw_status (rw σ) = None
  ∧ status_sent σ = StatusOK
  ∧ rw_body (rw σ) = []
  ∧ headers_sent σ = cors_header.
Proof.
  intros Hmeth σ. subst σ.
  run_cases env cfg r f; try (now destruct Hval); try contradiction.
  unfold status_sent, headers_sent. rewrite Htr, Hfs, Hrw. split_and!; reflexivity.
Qed.

Lemma options_only_sets_headers_witness :
  Method preflight = MethodOptions
  ∧ trace (serve sample_env default_config preflight roots) = []
  ∧ fs (serve sample_env default_config preflight roots) = roots.
Proof.
  assert (Method preflight = MethodOptions) as Hm by reflexivity.
  split; [exact Hm|].
  pose proof (options_only_sets_headers sample_env default_config preflight roots Hm) as H.
  cbv zeta in H. split; [exact (proj1 H) | exact (proj1 (proj2 H))].
Defined.

(** X2. Every response, whatever the request and however the run ends,
    carries the three CORS header fields with the values of
    [setupResponse], and the handler gives it no other field. *)
Theorem cors_on_every_response env cfg r f :
  let σ := serve env cfg r f in
  headers_sent σ = cors_header
  ∧ headers_sent σ !! "Access-Control-Allow-Origin" = Some "*"
  ∧ headers_sent σ !! "Access-Control-Allow-Methods" = Some "POST, GET, OPTIONS, PUT, DELETE"
  ∧ headers_sent σ !! "Access-Control-Allow-Headers"
    = Some "Accept, Content-Type, Content-Length, Accept-Encoding, X-CSRF-Token, Authorization".
Proof.
  intros σ. subst σ. rewrite headers_sent_cors. split_and!; reflexivity.
Qed.

(** X3. [jsonResponse] sets the field [Content-Type] after the status
    line and the payload have gone out: the header the handler gives to
    the response never has that field.  The field is in the handler's map
    when the run ends exactly when the payload was written. *)
Theorem content_type_set_too_late env cfg r f :
  let σ := serve env cfg r f in
  headers_sent σ !! "Content-Type" = None
  ∧ (rw_header (rw σ) !! "Content-Type" = Some "application/json" ↔ rw_body (rw σ) ≠ [])
  ∧ (rw_header (rw σ) !! "Content-Type" = None ↔ rw_body (rw σ) = []).
Proof.
  intros σ. subst σ. rewrite headers_sent_cors. split; [reflexivity|].
  run_cases env cfg r f; rewrite Hrw; cbn [rw_header rw_body answered];
    try (split; split; (reflexivity || congruence || discriminate));
    destruct werr; rewrite ?lookup_insert_eq;
    (split; split; (reflexivity || congruence || discriminate)).
Qed.



(** X5. The reason of a rejected body.  For a request other than OPTIONS
    whose body fails to decode, the reason is [invalid json body: ]
    followed by the error of the decoder.  When the body decodes without
    an error but to no URL (no [image_urls] key, an empty list, or
    [null]), there is no error to print, and the reason reads
    [invalid json body: <nil>]. *)
Theorem rejection_reason env cfg r f :
  Method r ≠ MethodOptions →
  snd (Decode (ReqBody r)) ≠ None ∨ ImageURLs (fst (Decode (ReqBody r))) = [] →
  let σ := serve env cfg r f in
  let reason :=
    match snd (Decode (ReqBody r)) with
    | Some e => "invalid json body: " +:+ e
    | None => "invalid json body: <nil>"
    end in
  rw_status (rw σ) = Some StatusBadRequest
  ∧ ∃ werr, trace σ = [EvWrite (JObject [("reason", JString reason)]) werr].
Proof.
  intros Hmeth Hbad σ reason. subst σ reason.
  assert (¬ validated r) as Hinv.
  { intros (_ & Herr & Hne). destruct Hbad; contradiction. }
  run_cases env cfg r f; try contradiction.
  rewrite Htr, Hrw. split; [reflexivity|]. exists werr.
  destruct (snd (Decode (ReqBody r))); reflexivity.
Qed.

Lemma rejection_reason_witness :
  Method no_images ≠ MethodOptions
  ∧ (snd (Decode (ReqBody no_images)) ≠ None
     ∨ ImageURLs (fst (Decode (ReqBody no_images))) = [])
  ∧ ∃ werr, trace (serve sample_env default_config no_images roots)
            = [EvWrite (JObject [("reason", JString "invalid json body: <nil>")]) werr].
Proof.
  assert (Method no_images ≠ MethodOptions) as Hm by discriminate.
  assert (snd (Decode (ReqBody no_images)) ≠ None
          ∨ ImageURLs (fst (Decode (ReqBody no_images))) = []) as Hbad
    by (right; reflexivity).
  split; [exact Hm|]. split; [exact Hbad|].
  exact (proj2 (rejection_reason sample_env default_config no_images roots Hm Hbad)).
Defined.

(** X6. The handler looks at the method only to tell OPTIONS from the
    rest: two requests with the same body and methods other than OPTIONS
    (GET, POST, PUT, DELETE or any other) run alike, with the same calls,
    the same file system and the same response. *)
Theorem method_not_checked env cfg r1 r2 f :
  Method r1 ≠ MethodOptions → Method r2 ≠ MethodOptions →
  ReqBody r1 = ReqBody r2 →
  serve env cfg r1 f = serve env cfg r2 f.
Proof.
  intros H1 H2 Hb. unfold serve, recognize.
  rewrite !bool_decide_eq_false_2 by assumption. now rewrite Hb.
Qed.

Lemma method_not_checked_witness :
  Method get_two_images ≠ MethodOptions
  ∧ Method two_images ≠ MethodOptions
  ∧ ReqBody get_two_images = ReqBody two_images
  ∧ serve sample_env default_config get_two_images roots
    = serve sample_env default_config two_images roots.
Proof.
  assert (Method get_two_images ≠ MethodOptions) as H1 by discriminate.
  assert (Method two_images ≠ MethodOptions) as H2 by discriminate.
  assert (ReqBody get_two_images = ReqBody two_images) as Hb by reflexivity.
  split; [exact H1|]. split; [exact H2|]. split; [exact Hb|].
  exact (method_not_checked sample_env default_config _ _ roots H1 H2 Hb).
Defined.

(** ** The ways a job fails *)

Lemma Mkdir_exists env name σ :
  is_Some (fs σ !! name) →
  ∃ e, Mkdir env name σ =
    (Some e, {| fs := fs σ; rw := rw σ; trace := trace σ ++ [EvMkdir name (Some e)] |}).
Proof.
  intros H. unfold Mkdir. unfold_monad.
  destruct (os_fault env (trace σ) (OpMkdir name)) as [e|]; [eexists; reflexivity|].
  rewrite bool_decide_eq_true_2 by assumption. eexists; reflexivity.
Qed.

Lemma serve_mkdir_exists env cfg r f :
  validated r → is_Some (f !! job_input env cfg) →
  ∃ e, trace (serve env cfg r f) !! 1%nat = Some (EvMkdir (job_input env cfg) (Some e)).
Proof.
  intros (Hmeth & Herr & Hne) Hex. unfold serve, recognize.
  rewrite bool_decide_eq_false_2 by assumption.
  destruct (Decode (ReqBody r)) as [req err]. cbn [fst snd] in Herr, Hne. subst err.
  rewrite (bool_decide_eq_false_2 (length (ImageURLs req) = 0%nat))
    by (destruct (ImageURLs req); [congruence | discriminate]).
  cbn [is_error orb]. unfold_monad. rewrite job_id_run. fold (job_input env cfg).
  match goal with |- context [Mkdir env ?n ?s] =>
    destruct (Mkdir_exists env n s Hex) as [e ->] end.
  unfold jsonError. rewrite jsonResponse_new by reflexivity. exists e. reflexivity.
Qed.

(** X7. The identifier of a job is not checked against the jobs there
    are.  When the path of the job's input directory is taken (the
    random identifier is that of an earlier job, or a file has that
    name), [os.Mkdir] fails and the handler gives up: status 500 with the
    reason [could not create input dir: ] and the error, no download, no
    call of the service, and the file system as it was. *)
Theorem existing_job_dir_fails env cfg r f :
  validated r →
  is_Some (f !! Join [inputDir cfg; job_id env]) →
  let σ := serve env cfg r f in
  rw_status (rw σ) = Some StatusInternalServerError
  ∧ fs σ = f
  ∧ gets (trace σ) = [] ∧ posts (trace σ) = []
  ∧ ∃ e werr,
      trace σ = [rand_event env; EvMkdir (Join [inputDir cfg; job_id env]) (Some e);
                 EvWrite (JObject [("reason", JString ("could not create input dir: " +:+ e))])
                   werr].
Proof.
  intros Hv Hex σ. subst σ. fold (job_input env cfg) in *.
  destruct (serve_mkdir_exists env cfg r f Hv Hex) as [e He].
  run_cases env cfg r f; try (now destruct Hv); try contradiction;
    rewrite Htr in He; try discriminate.
  rewrite Htr, Hrw, Hfs. split_and!; try reflexivity. eauto.
Qed.

Lemma existing_job_dir_fails_witness :
  validated two_images
  ∧ is_Some (roots_with_job !! Join [inputDir default_config; job_id sample_env])
  ∧ rw_status (rw (serve sample_env default_config two_images roots_with_job))
    = Some StatusInternalServerError
  ∧ fs (serve sample_env default_config two_images roots_with_job) = roots_with_job.
Proof.
  assert (validated two_images) as Hv.
  { split_and!; [discriminate | reflexivity | discriminate]. }
  assert (is_Some (roots_with_job !! Join [inputDir default_config; job_id sample_env]))
    as Hex by (exists Dir; reflexivity).
  split; [exact Hv|]. split; [exact Hex|].
  pose proof (existing_job_dir_fails sample_env default_config two_images roots_with_job
                Hv Hex) as H.
  cbv zeta in H. split; [exact (proj1 H) | exact (proj1 (proj2 H))].
Defined.

Lemma post_in_tail env cfg evs tail ev :
  Forall (λ ev, is_fetch ev = true) evs → is_post ev = true →
  ev ∈ job_trace env cfg evs ++ tail → ev ∈ tail.
Proof.
  intros Hfe Hp [Hin|Hin]%elem_of_app; [|assumption]. exfalso.
  unfold job_trace in Hin.
  apply elem_of_cons in Hin as [->|Hin]; [discriminate|].
  apply elem_of_cons in Hin as [->|Hin]; [discriminate|].
  apply (not_in_fetch _ _ Hfe) in Hin; [assumption|]. now destruct ev.
Qed.

(** X8. When the POST to the recognition service fails in transport (no
    response at all), that POST is the last call before the write of the
    response: the handler sends status 500 with the reason
    [could not call darkflow: ] and the error, and does not list the
    output directory. *)
Theorem post_failure_reported env cfg r f url ct body e :
  let σ := serve env cfg r f in
  let reason := JObject [("reason", JString ("could not call darkflow: " +:+ e))] in
  EvPost url ct body (inr e) ∈ trace σ →
  rw_status (rw σ) = Some StatusInternalServerError
  ∧ ∃ pre werr,
      trace σ = pre ++ [EvPost url ct body (inr e); EvWrite reason werr]
      ∧ rw_body (rw σ) = (if werr is None then [reason] else []).
Proof.
  intros σ reason Hin. subst σ reason.
  run_cases env cfg r f; rewrite Htr in Hin;
    try (now repeat (apply elem_of_cons in Hin as [Hin|Hin]; [discriminate|]);
         inversion Hin);
    pose proof (fetched_is_fetch _ _ _ _ _ Hf) as Hfe;
    apply post_in_tail in Hin; try assumption; try reflexivity;
    repeat (apply elem_of_cons in Hin as [Hin|Hin]; [try discriminate|]);
    try (now inversion Hin).
  injection Hin as -> -> -> ->. rewrite Htr, Hrw. split; [reflexivity|].
  exists (job_trace env cfg evs), werr. split; reflexivity.
Qed.

Lemma post_failure_reported_witness :
  let σ := serve env_service_down default_config two_images roots in
  EvPost "http://darkflow:8000" "application/json"
    (darkflow_body env_service_down default_config) (inr "dial tcp: connection refused")
    ∈ trace σ
  ∧ rw_status (rw σ) = Some StatusInternalServerError.
Proof.
  assert (EvPost "http://darkflow:8000" "application/json"
            (darkflow_body env_service_down default_config)
            (inr "dial tcp: connection refused")
          ∈ trace (serve env_service_down default_config two_images roots)) as Hin.
  { apply list_elem_of_lookup. exists 8%nat. reflexivity. }
  split; [exact Hin|].
  exact (proj1 (post_failure_reported env_service_down default_config two_images roots
                  _ _ _ _ Hin)).
Defined.

(** *** The listing *)

Lemma ReadDir_result env name σ :
  ReadDir env name σ =
  (readdir_result env (trace σ) (fs σ) name,
   {| fs := fs σ; rw := rw σ;
      trace := trace σ ++ [EvReadDir name (readdir_result env (trace σ) (fs σ) name)] |}).
Proof. reflexivity. Qed.


Lemma readdir_result_dir env tr f name :
  is_dir f name = true → os_fault env tr (OpReadDir name) = None →
  readdir_result env tr f name = inl (list_dir f name).
Proof.
  intros H Hno. unfold readdir_result, ReadDir. unfold_monad. cbn [fs trace].
  now rewrite Hno, H.
Qed.

Lemma serve_listing_checked env cfg r f : listing_checked env (serve env cfg r f).
Proof.
  unfold listing_checked, serve, recognize.
  destruct (bool_decide_reflect (Method r = MethodOptions)) as [Hm|Hm].
  { rewrite setupResponse_new by reflexivity. exact I. }
  destruct (Decode (ReqBody r)) as [req err] eqn:Hdec.
  destruct (is_error err || bool_decide (length (ImageURLs req) = 0%nat)) eqn:Hbad.
  { unfold jsonError. rewrite jsonResponse_new by reflexivity. exact I. }
  unfold_monad. rewrite job_id_run.
  fold (job_input env cfg). fold (job_output env cfg).
  match goal with |- context [Mkdir env ?n ?s] =>
    destruct (Mkdir_run env n s) as [[e|] ->] end; cbn [fs rw trace].
  { unfold jsonError. rewrite jsonResponse_new by reflexivity. exact I. }
  match goal with |- context [download env ?i ?u 0%nat ?s] =>
    destruct (download_spec env i u 0%nat s) as (evs & Hrw & Htr & Hf & Hd);
    destruct (download env i u 0%nat s) as [derr σd] end.
  cbn [fst snd fs rw trace] in *.
  destruct σd as [fd wd trd]. cbn [fs rw trace] in *. subst wd trd.
  destruct derr as [e|].
  { unfold jsonError. rewrite jsonResponse_new by reflexivity. cbn [snd fs trace].
    destruct (fetched_failed _ _ _ _ _ Hf) as (j & pre & ev & -> & Hev & _).
    rewrite !rev_app_distr. cbn [rev app]. now destruct ev. }
  cbn [Encode_buffer]. rewrite Post_run. cbn [fs rw trace].
  match goal with |- context [darkflow ?a ?b ?c ?d ?g ?h] =>
    destruct (darkflow a b c d g h) as [[code|e] f2] end; cbn [fst snd].
  2: { unfold jsonError. rewrite jsonResponse_new by reflexivity. cbn [snd fs trace].
       rewrite !rev_app_distr. exact I. }
  destruct (bool_decide_reflect (code ≠ StatusOK)) as [Hc|Hc].
  { unfold jsonError. rewrite jsonResponse_new by reflexivity. cbn [snd fs trace].
    rewrite !rev_app_distr. exact I. }
  match goal with |- context [ReadDir env _ {| fs := _; rw := _; trace := ?T |}] =>
    generalize T; intros tr end.
  rewrite ReadDir_result. cbn [fs rw trace].
  destruct (readdir_result env tr f2 (job_output env cfg)) as [names|e] eqn:Hres.
  - rewrite jsonResponse_new by reflexivity. cbn [snd fs trace].
    rewrite (rev_app_distr _ [EvWrite _ _]), (rev_app_distr _ [EvReadDir _ _]).
    cbn [rev app]. now rewrite rev_involutive.
  - unfold jsonError. rewrite jsonResponse_new by reflexivity. cbn [snd fs trace].
    rewrite (rev_app_distr _ [EvWrite _ _]), (rev_app_distr _ [EvReadDir _ _]).
    cbn [rev app]. now rewrite rev_involutive.
Qed.

(** After an answer 200 of the service, the handler lists the output
    directory in the file system the service left, and answers with the
    listing or with the error of the listing. *)
Lemma post_ok_listing env cfg r f url ct body :
  let σ := serve env cfg r f in
  EvPost url ct body (inl StatusOK) ∈ trace σ →
  ∃ pre werr,
    let res := readdir_result env (pre ++ [EvPost url ct body (inl StatusOK)]) (fs σ)
                 (job_output env cfg) in
    let status := if res is inl _ then StatusOK else StatusInternalServerError in
    let payload :=
      match res with
      | inl names => marshal_strings (image_paths env names)
      | inr e => marshal_reason ("could not read output dir: " +:+ e)
      end in
    trace σ = pre ++ [EvPost url ct body (inl StatusOK);
                      EvReadDir (job_output env cfg) res; EvWrite payload werr]
    ∧ rw σ = answered status payload werr.
Proof.
  intros σ Hin. subst σ. pose proof (serve_listing_checked env cfg r f) as Hl.
  unfold listing_checked in Hl.
  run_cases env cfg r f; rewrite Htr in Hin;
    try (now repeat (apply elem_of_cons in Hin as [Hin|Hin]; [discriminate|]);
         inversion Hin);
    pose proof (fetched_is_fetch _ _ _ _ _ Hf) as Hfe;
    apply post_in_tail in Hin; try assumption; try reflexivity;
    repeat (apply elem_of_cons in Hin as [Hin|Hin]; [try discriminate|]);
    try (now inversion Hin).
  - injection Hin as -> -> -> E. congruence.
  - injection Hin as -> -> ->. rewrite Htr in Hl.
    rewrite rev_app_distr in Hl. cbn [rev app] in Hl. rewrite rev_involutive in Hl.
    exists (job_trace env cfg evs), werr. cbv zeta. rewrite <- Hl. now split.
  - injection Hin as -> -> ->. rewrite Htr in Hl.
    rewrite rev_app_distr in Hl. cbn [rev app] in Hl. rewrite rev_involutive in Hl.
    exists (job_trace env cfg evs), werr. cbv zeta. rewrite <- Hl. now split.
Qed.



(** X10. When the service has answered 200, has left a directory at the
    path of the job's output directory, and the listing meets no fault of
    the operating system, the handler answers 200 with the array of the
    paths of the entries, whether or not the write reaches the client.
    An output directory without entries gives the empty array. *)
Theorem listing_answered env cfg r f url ct body :
  let σ := serve env cfg r f in
  let output := Join [outputDir cfg; job_id env] in
  EvPost url ct body (inl StatusOK) ∈ trace σ →
  is_dir (fs σ) output = true →
  (∀ tr, os_fault env tr (OpReadDir output) = None) →
  let names := list_dir (fs σ) output in
  let payload := JArray (map (λ name, JString ("/output/" +:+ job_id env +:+ "/" +:+ name))
                           names) in
  rw_status (rw σ) = Some StatusOK
  ∧ (∃ pre werr, trace σ = pre ++ [EvReadDir output (inl names); EvWrite payload werr]
       ∧ rw_body (rw σ) = (if werr is None then [payload] else []))
  ∧ (names = [] → payload = JArray []).
Proof.
  intros σ output Hin Hdir Hno names payload. subst σ output names payload.
  fold (job_output env cfg) in *.
  destruct (post_ok_listing env cfg r f url ct body Hin) as (pre & werr & Htr & Hrw).
  rewrite readdir_result_dir in Htr, Hrw by auto. cbv zeta in Htr, Hrw.
  unfold marshal_strings in Htr, Hrw. rewrite image_paths_literal in Htr, Hrw.
  rewrite Htr, Hrw. split_and!; [reflexivity | | now intros ->].
  exists (pre ++ [EvPost url ct body (inl StatusOK)]), werr.
  rewrite <- app_assoc. split; reflexivity.
Qed.

Lemma listing_answered_witness :
  let σ := serve sample_env default_config two_images roots in
  EvPost "http://darkflow:8000" "application/json"
    (darkflow_body sample_env default_config) (inl StatusOK) ∈ trace σ
  ∧ is_dir (fs σ) (Join [outputDir default_config; job_id sample_env]) = true
  ∧ (∀ tr, os_fault sample_env tr
             (OpReadDir (Join [outputDir default_config; job_id sample_env])) = None)
  ∧ rw_status (rw σ) = Some StatusOK.
Proof.
  assert (EvPost "http://darkflow:8000" "application/json"
            (darkflow_body sample_env default_config) (inl StatusOK)
          ∈ trace (serve sample_env default_config two_images roots)) as Hin.
  { apply list_elem_of_lookup. exists 8%nat. reflexivity. }
  assert (is_dir (fs (serve sample_env default_config two_images roots))
            (Join [outputDir default_config; job_id sample_env]) = true) as Hdir
    by reflexivity.
  assert (∀ tr, os_fault sample_env tr
                  (OpReadDir (Join [outputDir default_config; job_id sample_env])) = None)
    as Hno by reflexivity.
  split; [exact Hin|]. split; [exact Hdir|]. split; [exact Hno|].
  exact (proj1 (listing_answered sample_env default_config two_images roots
                  _ _ _ Hin Hdir Hno)).
Defined.

(** *** Download failures *)

Lemma fetched_failed_reason input i urls evs e :
  fetched input i urls evs (Some e) →
  ∃ pre ev, evs = pre ++ [ev] ∧ fetch_failed ev = true ∧ e = failure_reason ev.
Proof.
  intros H. remember (Some e) as err eqn:E. induction H; try discriminate.
  - injection E as <-. now exists [], (EvGet url (inr e0)).
  - injection E as <-.
    now exists [EvGet url (inl resp)], (EvCreate (Join [input; jpg_name i]) (Some e0)).
  - injection E as <-.
    now exists [EvGet url (inl resp); EvCreate (Join [input; jpg_name i]) None],
      (EvCopy (Join [input; jpg_name i]) w (Some e0)).
  - destruct (IHfetched E) as (pre & ev & -> & Hev & He).
    now exists (EvGet url (inl resp) :: EvCreate (Join [input; jpg_name i]) None
                :: EvCopy (Join [input; jpg_name i]) (Body resp) None :: pre), ev.
Qed.

(** X11. The reason sent after a failed download depends on the step
    that failed.  A failed GET is reported as [could not wget image: ]
    followed by the error; the error of a failed creation of the file or
    of a failed copy is sent as it is, with nothing in front. *)
Theorem download_failure_reason env cfg r f :
  let σ := serve env cfg r f in
  (∃ ev, ev ∈ trace σ ∧ fetch_failed ev = true) →
  ∃ pre ev msg werr,
    trace σ = pre ++ [ev; EvWrite (JObject [("reason", JString msg)]) werr]
    ∧ match ev with
      | EvGet _ (inr e) => msg = "could not wget image: " +:+ e
      | EvCreate _ (Some e) => msg = e
      | EvCopy _ _ (Some e) => msg = e
      | _ => False
      end.
Proof.
  intros σ (ev0 & Hin & Hfail). subst σ.
  run_cases env cfg r f; rewrite Htr in Hin;
    try (now repeat (apply elem_of_cons in Hin as [->|Hin]; [discriminate|]);
         inversion Hin).
  2-5: apply elem_of_app in Hin as [Hin|Hin];
    [ apply (no_failure_in_job_trace _ _ _ _ (proj2 (proj2 (proj2 (fetched_ok _ _ _ _ Hf)))))
        in Hin; congruence
    | now repeat (apply elem_of_cons in Hin as [->|Hin]; [discriminate|]); inversion Hin ].
  clear Hin Hfail ev0.
  destruct (fetched_failed_reason _ _ _ _ _ Hf) as (pre & ev & -> & Hev & ->).
  exists (job_trace env cfg pre), ev, (failure_reason ev), werr. split.
  - rewrite Htr. unfold job_trace. cbn [app]. now rewrite <- app_assoc.
  - destruct ev as [| |? [?|?]|? [?|]|? ? [?|]| | |]; try discriminate; reflexivity.
Qed.

Lemma download_failure_reason_witness :
  let σ := serve env_disk_full default_config two_images roots in
  (∃ ev, ev ∈ trace σ ∧ fetch_failed ev = true)
  ∧ ∃ pre ev msg werr,
      trace σ = pre ++ [ev; EvWrite (JObject [("reason", JString msg)]) werr]
      ∧ match ev with
        | EvGet _ (inr e) => msg = "could not wget image: " +:+ e
        | EvCreate _ (Some e) => msg = e
        | EvCopy _ _ (Some e) => msg = e
        | _ => False
        end.
Proof.
  assert (∃ ev, ev ∈ trace (serve env_disk_full default_config two_images roots)
                ∧ fetch_failed ev = true) as Hex.
  { exists (EvCopy "/input/abababab/0.jpg" "image" (Some "write: no space left on device")).
    split; [|reflexivity]. apply list_elem_of_lookup. exists 4%nat. reflexivity. }
  split; [exact Hex|].
  exact (download_failure_reason env_disk_full default_config two_images roots Hex).
Defined.

(** *** The entries of the listing *)

Lemma strip_prefix_Some p s rest : strip_prefix p s = Some rest ↔ s = p +:+ rest.
Proof.
  revert s. induction p as [|a p IH]; intros s.
  - cbn. change ("" +:+ rest) with rest. split; congruence.
  - rewrite str_app_cons. destruct s as [|b s]; cbn.
    + split; discriminate.
    + destruct (decide (a = b)) as [->|Hne].
      * rewrite IH. split; [now intros -> | now intros [= ->]].
      * split; [discriminate | intros [= -> _]; contradiction].
Qed.

Lemma entry_of_Some dir path name :
  entry_of dir path = Some name ↔ path = dir +:+ "/" +:+ name ∧ entry_name_ok name = true.
Proof.
  unfold entry_of. destruct (strip_prefix (dir +:+ "/") path) as [n|] eqn:E.
  - apply strip_prefix_Some in E. rewrite str_app_assoc in E. subst path.
    destruct (entry_name_ok n) eqn:Hok.
    + split; [now intros [= ->]|]. intros [E _]. f_equal.
      rewrite <- !str_app_assoc in E. revert E. generalize (dir +:+ "/"). intros d E.
      induction d as [|c d IH]; [exact E|]. rewrite !str_app_cons in E.
      injection E as E. auto.
    + split; [discriminate|]. intros [E H]. exfalso.
      rewrite <- !str_app_assoc in E. revert E. generalize (dir +:+ "/"). intros d E.
      assert (n = name) as ->; [|congruence].
      induction d as [|c d IH]; [exact E|]. rewrite !str_app_cons in E.
      injection E as E. auto.
  - split; [discriminate|]. intros [-> _].
    assert (strip_prefix (dir +:+ "/") (dir +:+ "/" +:+ name) = Some name) as E'
      by (apply strip_prefix_Some; now rewrite str_app_assoc).
    congruence.
Qed.

(** The listing holds the names directly inside the directory. *)
Lemma list_dir_elem f dir name :
  name ∈ list_dir f dir
  ↔ entry_name_ok name = true ∧ is_Some (f !! (dir +:+ "/" +:+ name)).
Proof.
  unfold list_dir. rewrite merge_sort_Permutation, list_elem_of_omap. split.
  - intros (path & Hin & [-> Hok]%entry_of_Some). split; [assumption|].
    apply list_elem_of_fmap in Hin as ([p x] & -> & Hin).
    apply elem_of_map_to_list in Hin. now exists x.
  - intros [Hok [x Hx]]. exists (dir +:+ "/" +:+ name). split.
    + apply list_elem_of_fmap. exists (dir +:+ "/" +:+ name, x).
      split; [reflexivity | now apply elem_of_map_to_list].
    + now apply entry_of_Some.
Qed.

Lemma NoDup_omap_inj {A B} (g : A → option B) (l : list A) :
  (∀ x y z, g x = Some z → g y = Some z → x = y) → NoDup l → NoDup (omap g l).
Proof.
  intros Hinj. induction 1 as [|x l Hx Hl IH]; [constructor|]. cbn.
  destruct (g x) as [z|] eqn:E; [|exact IH]. constructor; [|exact IH].
  intros (y & Hy & Hgy)%list_elem_of_omap. now rewrite (Hinj x y z E Hgy) in Hx.
Qed.

Lemma list_dir_NoDup f dir : NoDup (list_dir f dir).
Proof.
  unfold list_dir. rewrite merge_sort_Permutation. apply NoDup_omap_inj.
  - intros x y z [-> _]%entry_of_Some [-> _]%entry_of_Some. reflexivity.
  - apply NoDup_fst_map_to_list.
Qed.

(** X12. The array of a response with status 200 lists the entries of
    the job's output directory, as the run leaves it, in ascending order
    of their names and each of them once: a name is in the array exactly
    when something is at the path of that name directly inside the
    directory. *)
Theorem response_lists_each_entry_once env cfg r f :
  let σ := serve env cfg r f in
  let output := Join [outputDir cfg; job_id env] in
  rw_status (rw σ) = Some StatusOK →
  ∃ names pre werr,
    trace σ = pre ++ [EvWrite (JArray (map (λ name, JString ("/output/" +:+ job_id env
                                                               +:+ "/" +:+ name)) names))
                        werr]
    ∧ StronglySorted String.le names
    ∧ NoDup names
    ∧ ∀ name, name ∈ names
              ↔ entry_name_ok name = true ∧ is_Some (fs σ !! (output +:+ "/" +:+ name)).
Proof.
  intros σ output Hst. subst σ output. fold (job_output env cfg).
  run_cases env cfg r f; rewrite Hrw in Hst; cbn in Hst; try discriminate;
    try (injection Hst as Hst; contradiction).
  exists (list_dir (fs (serve env cfg r f)) (job_output env cfg)),
    (job_trace env cfg evs ++ [EvPost (darkflowURL cfg) "application/json"
                                 (darkflow_body env cfg) (inl StatusOK);
                               EvReadDir (job_output env cfg)
                                 (inl (list_dir (fs (serve env cfg r f))
                                         (job_output env cfg)))]), werr.
  split_and!.
  - rewrite Htr, <- app_assoc. unfold marshal_strings. now rewrite image_paths_literal.
  - apply list_dir_sorted.
  - apply list_dir_NoDup.
  - intros name. apply list_dir_elem.
Qed.

Lemma response_lists_each_entry_once_witness :
  let σ := serve sample_env default_config two_images roots in
  rw_status (rw σ) = Some StatusOK
  ∧ ∃ names pre werr,
      trace σ = pre ++ [EvWrite (JArray (map (λ name, JString ("/output/" +:+ job_id sample_env
                                                                 +:+ "/" +:+ name)) names))
                          werr]
      ∧ StronglySorted String.le names.
Proof.
  assert (rw_status (rw (serve sample_env default_config two_images roots)) = Some StatusOK)
    as Hst by reflexivity.
  split; [exact Hst|].
  destruct (response_lists_each_entry_once sample_env default_config two_images roots Hst)
    as (names & pre & werr & Htr & Hs & _).
  exists names, pre, werr. split; assumption.
Defined.

(** ** The file system *)

Lemma downloaded_frame env cfg evs f fd p :
  downloaded (job_input env cfg) 0 evs (<[job_input env cfg := Dir]> f) fd →
  p ≠ job_input env cfg → (∀ k, p ≠ Join [job_input env cfg; jpg_name k]) →
  fd !! p = f !! p.
Proof.
  intros [_ Hfr] Hp Hk. rewrite Hfr by (intros; apply Hk).
  now rewrite lookup_insert_ne by auto.
Qed.

(** X13. The handler writes to the file system in two places only: the
    job's input directory and the files [k.jpg] in it.  Whatever is at
    any other path (the two roots, the directories of other jobs, the
    output directories) is left as it was: without a POST the path holds
    at the end what it held at the start, and with a POST it held that
    when the service was called, the file system at the end being the
    one the service left. *)
Theorem handler_writes_only_job_files env cfg r f p :
  let σ := serve env cfg r f in
  let input := Join [inputDir cfg; job_id env] in
  p ≠ input → (∀ k, p ≠ Join [input; jpg_name k]) →
  (posts (trace σ) = [] → fs σ !! p = f !! p)
  ∧ (∀ pre url ct body res rest,
       trace σ = pre ++ EvPost url ct body res :: rest →
       ∃ fd, fd !! p = f !! p ∧ darkflow env pre fd url ct body = (res, fs σ)).
Proof.
  intros σ input Hp Hk. subst σ input. fold (job_input env cfg) in *.
  run_cases env cfg r f; rewrite Htr;
    try pose proof (fetched_is_fetch _ _ _ _ _ Hf) as Hfe;
    rewrite ?posts_app, ?posts_job_trace by assumption.
  - rewrite Hfs. split; [reflexivity|]. intros [|? ?] ? ? ? ? ? E; discriminate.
  - rewrite Hfs. split; [reflexivity|]. intros [|? [|? ?]] ? ? ? ? ? E; discriminate.
  - rewrite Hfs. split; [reflexivity|].
    intros [|? [|? [|? [|? ?]]]] ? ? ? ? ? E; discriminate.
  - split; [intros _; eapply downloaded_frame; eassumption|].
    intros pre url ct body res rest E. exfalso.
    apply (f_equal posts) in E. rewrite !posts_app, posts_job_trace in E by assumption.
    cbn in E. destruct (posts pre); discriminate.
  - split; [discriminate|]. intros pre url ct body res rest E.
    apply split_at_post in E as (<- & [= <- <- <- <-] & _);
      [| now apply posts_job_trace | reflexivity | reflexivity | reflexivity].
    exists fd. split; [eapply downloaded_frame; eassumption | assumption].
  - split; [discriminate|]. intros pre url ct body res rest E.
    apply split_at_post in E as (<- & [= <- <- <- <-] & _);
      [| now apply posts_job_trace | reflexivity | reflexivity | reflexivity].
    exists fd. split; [eapply downloaded_frame; eassumption | assumption].
  - split; [discriminate|]. intros pre url ct body res rest E.
    apply split_at_post in E as (<- & [= <- <- <- <-] & _);
      [| now apply posts_job_trace | reflexivity | reflexivity | reflexivity].
    exists fd. split; [eapply downloaded_frame; eassumption | assumption].
  - split; [discriminate|]. intros pre url ct body res rest E.
    apply split_at_post in E as (<- & [= <- <- <- <-] & _);
      [| now apply posts_job_trace | reflexivity | reflexivity | reflexivity].
    exists fd. split; [eapply downloaded_frame; eassumption | assumption].
Qed.

Lemma handler_writes_only_job_files_witness :
  let σ := serve env_second_unreachable default_config two_images roots in
  "/output" ≠ Join [inputDir default_config; job_id env_second_unreachable]
  ∧ (∀ k, "/output" ≠ Join [Join [inputDir default_config; job_id env_second_unreachable];
                            jpg_name k])
  ∧ (posts (trace σ) = [] → fs σ !! "/output" = roots !! "/output").
Proof.
  assert ("/output" ≠ Join [inputDir default_config; job_id env_second_unreachable]) as Hp
    by discriminate.
  assert (∀ k, "/output" ≠ Join [Join [inputDir default_config;
                                       job_id env_second_unreachable]; jpg_name k]) as Hk.
  { intros k E. apply (f_equal (λ p, last (segments p))) in E.
    rewrite Join_entry_last in E by apply jpg_name_ok.
    change (Some "output" = Some (jpg_name k)) in E. injection E as E.
    apply (f_equal (str_all (λ c, negb (bool_decide (c = "."%char))))) in E.
    unfold jpg_name in E. rewrite str_all_app, andb_false_r in E. discriminate. }
  split; [exact Hp|]. split; [exact Hk|].
  exact (proj1 (handler_writes_only_job_files env_second_unreachable default_config
                  two_images roots "/output" Hp Hk)).
Defined.

(** *** What the service finds *)

Lemma at_post env cfg r f pre url ct body res rest :
  trace (serve env cfg r f) = pre ++ EvPost url ct body res :: rest →
  ∃ evs fd,
    pre = job_trace env cfg evs
    ∧ fetched (job_input env cfg) 0 (urls_of r) evs None
    ∧ downloaded (job_input env cfg) 0 evs (<[job_input env cfg := Dir]> f) fd
    ∧ darkflow env pre fd url ct body = (res, fs (serve env cfg r f)).
Proof.
  intros E.
  run_cases env cfg r f; rewrite Htr in E;
    try pose proof (fetched_is_fetch _ _ _ _ _ Hf) as Hfe.
  - destruct pre; discriminate.
  - destruct pre as [|? [|? ?]]; discriminate.
  - destruct pre as [|? [|? [|? [|? ?]]]]; discriminate.
  - exfalso. apply (f_equal posts) in E.
    rewrite !posts_app, posts_job_trace in E by assumption.
    cbn in E. destruct (posts pre); discriminate.
  - apply split_at_post in E as (<- & [= <- <- <- <-] & _);
      [| now apply posts_job_trace | reflexivity | reflexivity | reflexivity].
    exists evs, fd. split_and!; [reflexivity | assumption ..].
  - apply split_at_post in E as (<- & [= <- <- <- <-] & _);
      [| now apply posts_job_trace | reflexivity | reflexivity | reflexivity].
    exists evs, fd. split_and!; [reflexivity | assumption ..].
  - apply split_at_post in E as (<- & [= <- <- <- <-] & _);
      [| now apply posts_job_trace | reflexivity | reflexivity | reflexivity].
    exists evs, fd. split_and!; [reflexivity | assumption ..].
  - apply split_at_post in E as (<- & [= <- <- <- <-] & _);
      [| now apply posts_job_trace | reflexivity | reflexivity | reflexivity].
    exists evs, fd. split_and!; [reflexivity | assumption ..].
Qed.

Lemma fetched_ok_files input i urls evs :
  fetched input i urls evs None →
  ∀ j u, urls !! j = Some u →
    ∃ resp, evs !! (3 * j)%nat = Some (EvGet u (inl resp))
            ∧ (Join [input; jpg_name (i + j)], Body resp) ∈ copied evs.
Proof.
  intros H. remember None as err eqn:E. induction H; try discriminate; intros j u Hj.
  destruct j as [|j].
  - injection Hj as ->. exists resp. split; [reflexivity|].
    rewrite Nat.add_0_r. cbn. apply elem_of_cons. now left.
  - destruct (IHfetched E j u Hj) as (resp' & Hev & Hin). exists resp'. split.
    + replace (3 * S j)%nat with (S (S (S (3 * j)))) by lia. exact Hev.
    + replace (i + S j)%nat with (S i + j)%nat by lia. cbn. apply elem_of_cons. now right.
Qed.

(** X14. When the service is called, the work of the downloads is done
    and in place: in the file system handed to the service, the job's
    input directory is a directory and, for every position [i] of the
    list of URLs, the file [i.jpg] in it holds the body of the response
    to the GET of the URL at that position, whatever the status of that
    response. *)
Theorem service_sees_downloads env cfg r f pre url ct body res rest :
  let σ := serve env cfg r f in
  let input := Join [inputDir cfg; job_id env] in
  trace σ = pre ++ EvPost url ct body res :: rest →
  ∃ fd,
    darkflow env pre fd url ct body = (res, fs σ)
    ∧ fd !! input = Some Dir
    ∧ ∀ i u, urls_of r !! i = Some u →
        ∃ resp, get_event pre i = Some (EvGet u (inl resp))
                ∧ fd !! Join [input; jpg_name i] = Some (File (Body resp)).
Proof.
  intros σ input E. subst σ input. fold (job_input env cfg).
  destruct (at_post _ _ _ _ _ _ _ _ _ _ E) as (evs & fd & -> & Hf & [Hcop Hfr] & Hdf).
  exists fd. split_and!; [assumption | |].
  - rewrite Hfr by (intros; apply job_file_not_output). apply lookup_insert_eq.
  - intros i u Hu. destruct (fetched_ok_files _ _ _ _ Hf i u Hu) as (resp & Hev & Hin).
    exists resp. split; [exact Hev | now apply Hcop].
Qed.

Lemma service_sees_downloads_witness :
  let σ := serve sample_env default_config two_images roots in
  trace σ = take 8 (trace σ)
            ++ EvPost "http://darkflow:8000" "application/json"
                 (darkflow_body sample_env default_config) (inl 200)
            :: drop 9 (trace σ)
  ∧ ∃ fd : gmap string node,
      fd !! Join [inputDir default_config; job_id sample_env] = Some Dir
          ∧ ∀ i u, urls_of two_images !! i = Some u →
              ∃ resp, fd !! Join [Join [inputDir default_config; job_id sample_env];
                                  jpg_name i] = Some (File (Body resp)).
Proof.
  assert (trace (serve sample_env default_config two_images roots)
          = take 8 (trace (serve sample_env default_config two_images roots))
            ++ EvPost "http://darkflow:8000" "application/json"
                 (darkflow_body sample_env default_config) (inl 200)
            :: drop 9 (trace (serve sample_env default_config two_images roots))) as E
    by reflexivity.
  split; [exact E|].
  destruct (service_sees_downloads sample_env default_config two_images roots _ _ _ _ _ _ E)
    as (fd & _ & Hdir & Hfiles).
  exists fd. split; [exact Hdir|]. intros i u Hu.
  destruct (Hfiles i u Hu) as (resp & _ & Hfile). now exists resp.
Defined.

(** X15. The handler removes nothing.  A job whose directory was made
    and that ended without a call of the service (a download failed)
    leaves that directory behind, with the files written so far. *)
Theorem failed_job_keeps_directory env cfg r f :
  let σ := serve env cfg r f in
  let input := Join [inputDir cfg; job_id env] in
  EvMkdir input None ∈ trace σ →
  posts (trace σ) = [] →
  fs σ !! input = Some Dir
  ∧ rw_status (rw σ) = Some StatusInternalServerError
  ∧ ∀ name w, (name, w) ∈ copied (trace σ) → fs σ !! name = Some (File w).
Proof.
  intros σ input Hin Hpost. subst σ input. fold (job_input env cfg) in *.
  run_cases env cfg r f; rewrite Htr in Hin, Hpost;
    try (now repeat (apply elem_of_cons in Hin as [Hin|Hin]; [discriminate|]);
         inversion Hin);
    pose proof (fetched_is_fetch _ _ _ _ _ Hf) as Hfe;
    rewrite ?posts_app, ?posts_job_trace in Hpost by assumption; try discriminate.
  destruct Hd as [Hcop Hfr]. rewrite Hrw, Htr. split_and!; [|reflexivity|].
  - rewrite Hfr by (intros; apply job_file_not_output). apply lookup_insert_eq.
  - rewrite copied_app, copied_job_trace, app_nil_r. exact Hcop.
Qed.

Lemma failed_job_keeps_directory_witness :
  let σ := serve env_second_unreachable default_config two_images roots in
  EvMkdir (Join [inputDir default_config; job_id env_second_unreachable]) None ∈ trace σ
  ∧ posts (trace σ) = []
  ∧ fs σ !! Join [inputDir default_config; job_id env_second_unreachable] = Some Dir.
Proof.
  assert (EvMkdir (Join [inputDir default_config; job_id env_second_unreachable]) None
          ∈ trace (serve env_second_unreachable default_config two_images roots)) as Hin.
  { apply list_elem_of_lookup. exists 1%nat. reflexivity. }
  assert (posts (trace (serve env_second_unreachable default_config two_images roots)) = [])
    as Hp by reflexivity.
  split; [exact Hin|]. split; [exact Hp|].
  exact (proj1 (failed_job_keeps_directory env_second_unreachable default_config two_images
                  roots Hin Hp)).
Defined.

(** ** The fetcher, once more *)

(** X16. [wget] touches the file system at the path of its file only and
    leaves the response writer alone.  When the copy breaks off, the file
    stays, holding what was written: the bytes before a failed write, or
    the bytes read before the body failed; [wget] does not remove it, and
    reports the error of the copy. *)
Theorem wget_leaves_partial_file env from to σ :
  let err := fst (wget env from to σ) in
  let σ' := snd (wget env from to σ) in
  rw σ' = rw σ
  ∧ (∀ p, p ≠ to → fs σ' !! p = fs σ !! p)
  ∧ (∀ resp,
       http_get env (trace σ) from = inl resp →
       os_fault env (trace σ ++ [EvGet from (inl resp)]) (OpCreate to) = None →
       is_dir (fs σ) to = false →
       (∀ n e,
          write_fault env (trace σ ++ [EvGet from (inl resp); EvCreate to None]) to
          = Some (n, e) →
          err = Some e ∧ fs σ' !! to = Some (File (str_take n (Body resp))))
       ∧ (∀ e,
          write_fault env (trace σ ++ [EvGet from (inl resp); EvCreate to None]) to = None →
          BodyErr resp = Some e →
          err = Some e ∧ fs σ' !! to = Some (File (Body resp)))).
Proof.
  intros err σ'. subst err σ'. split_and!.
  - destruct (wget_cases env from to σ)
      as [(e & E) | [(resp & e & E) | [(resp & w & e & E) | (resp & E)]]];
      rewrite E; reflexivity.
  - intros p Hp.
    destruct (wget_cases env from to σ)
      as [(e & E) | [(resp & e & E) | [(resp & w & e & E) | (resp & E)]]];
      rewrite E; cbn [snd fs]; rewrite ?lookup_insert_ne by auto; reflexivity.
  - intros resp Hget Hfault Hdir.
    unfold wget. unfold_monad. rewrite Get_run, Hget.
    unfold Create, Copy. unfold_monad. cbn [fs rw trace]. rewrite Hfault, Hdir.
    cbn [fs rw trace]. rewrite <- app_assoc. cbn [app]. split.
    + intros n e ->. cbn [fst snd fs]. split; [reflexivity | apply lookup_insert_eq].
    + intros e -> ->. cbn [fst snd fs]. split; [reflexivity | apply lookup_insert_eq].
Qed.

(** ** The response helper, once more *)

(** X17. [jsonResponse] on a writer whose status line has gone out: the
    status and the header sent stay as they were (the call to
    [WriteHeader] changes nothing), the fields set now reach the
    handler's map only, and the payload is written under the status that
    was sent first, which decides whether a body is allowed. *)
Theorem first_status_wins env status payload σ sent :
  rw_status (rw σ) = Some sent →
  let σ' := snd (jsonResponse env status payload σ) in
  let werr := write_result env sent (trace σ) payload in
  rw_status (rw σ') = Some sent
  ∧ rw_sent (rw σ') = rw_sent (rw σ)
  ∧ fs σ' = fs σ
  ∧ trace σ' = trace σ ++ [EvWrite payload werr]
  ∧ rw_body (rw σ') = rw_body (rw σ) ++ (if werr is None then [payload] else []).
Proof.
  destruct σ as [f [h st snt b] tr]. cbn [rw rw_status fs trace rw_sent rw_body].
  intros ->. cbv zeta.
  unfold jsonResponse, setupResponse, Encode, WriteHeader, Header_Set. unfold_monad.
  cbn [rw rw_status rw_header rw_sent rw_body fs trace fst snd].
  destruct (write_result env sent tr payload);
    cbn [rw rw_status rw_header rw_sent rw_body fs trace fst snd];
    rewrite ?app_nil_r; split_and!; reflexivity.
Qed.

Lemma first_status_wins_witness :
  rw_status (rw sent_no_content) = Some 204
  ∧ rw_status (rw (snd (jsonResponse sample_env StatusOK (JArray []) sent_no_content)))
    = Some 204.
Proof.
  assert (rw_status (rw sent_no_content) = Some 204) as H by reflexivity.
  split; [exact H|].
  exact (proj1 (first_status_wins sample_env StatusOK (JArray []) sent_no_content 204 H)).
Defined.

(** ** Identifiers, once more *)

Lemma hex_digits_of_byte v :
  hexval (hexdigit (N.shiftr (Byte.to_N v) 4)) = Some (N.shiftr (Byte.to_N v) 4)
  ∧ hexval (hexdigit (N.land (Byte.to_N v) 15)) = Some (N.land (Byte.to_N v) 15)
  ∧ Byte.of_N (N.shiftr (Byte.to_N v) 4 * 16 + N.land (Byte.to_N v) 15) = Some v.
Proof. destruct v; split_and!; vm_compute; reflexivity. Qed.

(** Decoding gives back the bytes that were encoded. *)
Lemma DecodeString_EncodeToString src : DecodeString (EncodeToString src) = Some src.
Proof.
  induction src as [|v src IH]; [reflexivity|].
  cbn [EncodeToString DecodeString].
  destruct (hex_digits_of_byte v) as (-> & -> & ->). now rewrite IH.
Qed.

Lemma EncodeToString_inj a b : EncodeToString a = EncodeToString b → a = b.
Proof.
  intros E. apply (f_equal DecodeString) in E.
  rewrite !DecodeString_EncodeToString in E. now injection E.
Qed.

Lemma str_take_all n s : (String.length s ≤ n)%nat → str_take n s = s.
Proof.
  revert n. induction s as [|c s IH]; intros [|n] H; cbn in *; try reflexivity; [lia|].
  rewrite IH by lia. reflexivity.
Qed.

Lemma even_buffer_size len :
  1 ≤ len → Z.even len = true → (2 * Z.to_nat ((len - 1) ÷ 2 + 1))%nat = Z.to_nat len.
Proof.
  intros H [k ->]%Z.even_spec. rewrite Z.quot_div_nonneg by lia.
  pose proof (Z.div_mod (2 * k - 1) 2 ltac:(lia)) as Hd.
  pose proof (Z.mod_pos_bound (2 * k - 1) 2 ltac:(lia)) as Hm.
  lia.
Qed.

(** X18. For an even length the identifier keeps every bit of the bytes
    read: two calls of [generateID] whose reads fill the buffer return
    the same identifier exactly when they read the same bytes.  So two
    jobs get the same 8 digits, and by them the same directories, only
    when the random source delivers the same 4 bytes twice. *)
Theorem generateID_injective env1 env2 σ1 σ2 len :
  1 ≤ len → Z.even len = true →
  let n := Z.to_nat ((len - 1) ÷ 2 + 1) in
  let data1 := rand_source env1 (trace σ1) n in
  let data2 := rand_source env2 (trace σ2) n in
  length data1 = n → length data2 = n →
  fst (generateID env1 len σ1) = fst (generateID env2 len σ2) ↔ data1 = data2.
Proof.
  intros Hlen Heven n data1 data2 H1 H2. subst data1 data2.
  rewrite !generateID_run. cbn [fst]. fold n.
  rewrite !fill_full by (now rewrite make_bytes_length).
  rewrite !str_take_all
    by (rewrite EncodeToString_length; fold n in H1, H2; rewrite ?H1, ?H2;
        pose proof (even_buffer_size len Hlen Heven); fold n in H; lia).
  split; [apply EncodeToString_inj | now intros ->].
Qed.

Lemma generateID_injective_witness :
  1 ≤ 8 ∧ Z.even 8 = true
  ∧ (fst (generateID sample_env 8 (start roots)) = fst (generateID other_env 8 (start roots))
     ↔ rand_source sample_env [] 4 = rand_source other_env [] 4).
Proof.
  split; [lia|]. split; [reflexivity|].
  exact (generateID_injective sample_env other_env (start roots) (start roots) 8
           ltac:(lia) eq_refl eq_refl eq_refl).
Defined.

Lemma str_app_inj_length (a b x y : string) :
  String.length a = String.length b → a +:+ x = b +:+ y → a = b ∧ x = y.
Proof.
  revert b. induction a as [|c a IH]; intros [|d b] Hl E; try discriminate.
  - now split.
  - rewrite !str_app_cons in E. injection E as -> E. injection Hl as Hl.
    destruct (IH b Hl E) as [-> ->]. now split.
Qed.

Lemma str_app_inv_l (p a b : string) : p +:+ a = p +:+ b → a = b.
Proof.
  intros E. now destruct (str_app_inj_length p p a b eq_refl E).
Qed.

(** X19. Jobs with different identifiers do not meet in the file system
    or in the paths of the response: their input directories differ,
    their output directories differ, a path [/output/<id>/<name>] of one
    is never a path of the other, and, under an input root that is a
    clean path, no file [i.jpg] of one is a file of the other. *)
Theorem distinct_jobs_disjoint env1 env2 cfg :
  job_id env1 ≠ job_id env2 →
  Join [inputDir cfg; job_id env1] ≠ Join [inputDir cfg; job_id env2]
  ∧ Join [outputDir cfg; job_id env1] ≠ Join [outputDir cfg; job_id env2]
  ∧ (∀ n1 n2, entry_name_ok n1 = true → entry_name_ok n2 = true →
       Join ["/output"; job_id env1; n1] ≠ Join ["/output"; job_id env2; n2])
  ∧ (Clean (inputDir cfg) = inputDir cfg → inputDir cfg ≠ "/" → inputDir cfg ≠ "." →
     ∀ i j, Join [Join [inputDir cfg; job_id env1]; jpg_name i]
            ≠ Join [Join [inputDir cfg; job_id env2]; jpg_name j]).
Proof.
  intros Hne.
  assert (String.length (job_id env1) = String.length (job_id env2)) as Hlen
    by (now rewrite !job_id_length).
  split_and!.
  - rewrite !Join_entry by apply job_id_ok. now intros E%str_app_inv_l.
  - rewrite !Join_entry by apply job_id_ok. now intros E%str_app_inv_l.
  - intros n1 n2 H1 H2. rewrite !output_path by assumption.
    intros E%str_app_inv_l. now apply str_app_inj_length in E as [E _].
  - intros Hc Hroot Hdot i j.
    rewrite !Join_entry_clean2 by auto using job_id_ok, jpg_name_ok.
    intros E%str_app_inv_l%str_app_inv_l. now apply str_app_inj_length in E as [E _].
Qed.

Lemma distinct_jobs_disjoint_witness :
  job_id sample_env ≠ job_id other_env
  ∧ Join [inputDir default_config; job_id sample_env]
    ≠ Join [inputDir default_config; job_id other_env].
Proof.
  assert (job_id sample_env ≠ job_id other_env) as Hne by discriminate.
  split; [exact Hne|].
  exact (proj1 (distinct_jobs_disjoint sample_env other_env default_config Hne)).
Defined.

(** ** The paths of the response and the file server *)

Lemma has_suffix_spec suffix s : has_suffix suffix s = true ↔ ∃ pre, s = pre +:+ suffix.
Proof.
  induction s as [|c s IH]; cbn [has_suffix].
  - rewrite orb_false_r, bool_decide_eq_true. split.
    + intros <-. now exists "".
    + intros [[|c pre] E]; [exact E | discriminate].
  - rewrite orb_true_iff, bool_decide_eq_true, IH. split.
    + intros [<- | [pre ->]]; [now exists "" | now exists (String c pre)].
    + intros [[|c' pre] E]; [now left | right].
      rewrite str_app_cons in E. injection E as _ ->. now exists pre.
Qed.

(** A path that ends with an entry name ends with no other. *)
Lemma suffix_is_entry x name other :
  str_all (λ c, negb (is_slash c)) name = true →
  str_all (λ c, negb (is_slash c)) other = true →
  name ≠ other →
  has_suffix ("/" +:+ other) (x +:+ "/" +:+ name) = false.
Proof.
  intros Hn Ho Hne. apply not_true_is_false. intros [pre E]%has_suffix_spec.
  apply (f_equal (λ p, last (segments p))) in E.
  rewrite !last_snoc_segment in E by assumption. congruence.
Qed.

Lemma clean_step_empty root out : clean_step root out "" = out.
Proof. reflexivity. Qed.

Lemma Clean_rooted_entries a b :
  entry_name_ok a = true → entry_name_ok b = true →
  Clean ("/" +:+ a +:+ "/" +:+ b) = "/" +:+ a +:+ "/" +:+ b.
Proof.
  intros Ha Hb.
  pose proof Ha as (_ & _ & _ & Has)%entry_name_ok_inv.
  pose proof Hb as (_ & _ & _ & Hbs)%entry_name_ok_inv.
  unfold Clean. rewrite bool_decide_eq_false_2 by discriminate.
  change (rooted ("/" +:+ a +:+ "/" +:+ b)) with true.
  change ("/" +:+ a +:+ "/" +:+ b) with ("" +:+ "/" +:+ (a +:+ "/" +:+ b)) at 1.
  rewrite !segments_app_slash, (segments_no_slash a), (segments_no_slash b) by assumption.
  cbn [segments app fold_left]. rewrite clean_step_empty, !clean_step_entry by assumption.
  reflexivity.
Qed.

Lemma Clean_rooted_twice a b :
  entry_name_ok a = true → entry_name_ok b = true →
  Clean ("/" +:+ "/" +:+ a +:+ "/" +:+ b) = "/" +:+ a +:+ "/" +:+ b.
Proof.
  intros Ha Hb.
  pose proof Ha as (_ & _ & _ & Has)%entry_name_ok_inv.
  pose proof Hb as (_ & _ & _ & Hbs)%entry_name_ok_inv.
  unfold Clean. rewrite bool_decide_eq_false_2 by discriminate.
  change (rooted ("/" +:+ "/" +:+ a +:+ "/" +:+ b)) with true.
  change ("/" +:+ "/" +:+ a +:+ "/" +:+ b)
    with ("" +:+ "/" +:+ ("" +:+ "/" +:+ (a +:+ "/" +:+ b))) at 1.
  rewrite !segments_app_slash, (segments_no_slash a), (segments_no_slash b) by assumption.
  cbn [segments app fold_left]. rewrite !clean_step_empty, !clean_step_entry by assumption.
  reflexivity.
Qed.

Lemma Clean_double_slash d a b :
  d ≠ "" →
  Clean (d +:+ "/" +:+ "/" +:+ a +:+ "/" +:+ b) = Clean (d +:+ "/" +:+ a +:+ "/" +:+ b).
Proof.
  intros Hd. unfold Clean.
  rewrite !bool_decide_eq_false_2 by (destruct d; [congruence | discriminate]).
  rewrite !rooted_app by assumption. f_equal.
  change (d +:+ "/" +:+ "/" +:+ a +:+ "/" +:+ b)
    with (d +:+ "/" +:+ ("" +:+ "/" +:+ (a +:+ "/" +:+ b))).
  rewrite !segments_app_slash, !fold_left_app. reflexivity.
Qed.

(** The file the server opens for an entry of a directory under the
    root. *)
Lemma Dir_Open_entry d a b :
  entry_name_ok a = true → entry_name_ok b = true →
  Join [if bool_decide (d = "") then "." else d; "/" +:+ a +:+ "/" +:+ b]
  = dir_prefix d +:+ a +:+ "/" +:+ b.
Proof.
  intros Ha Hb. destruct (bool_decide_reflect (d = "")) as [->|Hd].
  - pose proof Ha as (_ & _ & _ & Has)%entry_name_ok_inv.
    pose proof Hb as (_ & _ & _ & Hbs)%entry_name_ok_inv.
    cbn [Join]. rewrite bool_decide_eq_false_2 by discriminate.
    change (join_slash ["."; "/" +:+ a +:+ "/" +:+ b])
      with ("." +:+ "/" +:+ ("" +:+ "/" +:+ (a +:+ "/" +:+ b))).
    unfold Clean. rewrite bool_decide_eq_false_2 by discriminate.
    change (rooted ("." +:+ "/" +:+ ("" +:+ "/" +:+ (a +:+ "/" +:+ b)))) with false.
    rewrite !segments_app_slash, (segments_no_slash a), (segments_no_slash b) by assumption.
    change (segments ".") with ["."]. cbn [segments app fold_left].
    change (clean_step false [] ".") with (@nil string).
    rewrite clean_step_empty, !clean_step_entry by assumption.
    unfold render. cbn [rev app join_slash].
    rewrite bool_decide_eq_false_2; [reflexivity|].
    intros E. apply (f_equal String.length) in E. rewrite !str_app_length in E.
    cbn in E. lia.
  - cbn [Join]. rewrite bool_decide_eq_false_2 by assumption.
    change (join_slash [d; "/" +:+ a +:+ "/" +:+ b])
      with (d +:+ "/" +:+ "/" +:+ a +:+ "/" +:+ b).
    rewrite Clean_double_slash by assumption.
    rewrite <- (Join_entry2 d a b) by assumption.
    cbn [Join]. now rewrite bool_decide_eq_false_2 by assumption.
Qed.

Lemma entry_no_nul_path a b :
  str_all (λ c, negb (bool_decide (c = Ascii.zero))) a = true →
  str_all (λ c, negb (bool_decide (c = Ascii.zero))) b = true →
  str_all (λ c, negb (bool_decide (c = Ascii.zero))) ("/" +:+ a +:+ "/" +:+ b) = true.
Proof.
  intros Ha Hb. change ("/" +:+ a +:+ "/" +:+ b) with (String "/" (a +:+ "/" +:+ b)).
  cbn [str_all]. rewrite !str_all_app, Ha, Hb. reflexivity.
Qed.

Lemma hex_no_nul s :
  str_all is_lower_hex s = true →
  str_all (λ c, negb (bool_decide (c = Ascii.zero))) s = true.
Proof.
  apply str_all_impl. intros c Hc. apply negb_true_iff, bool_decide_eq_false.
  intros ->. discriminate.
Qed.

Lemma Clean_output_path a b :
  entry_name_ok a = true → entry_name_ok b = true →
  Clean ("/output/" +:+ a +:+ "/" +:+ b) = "/output/" +:+ a +:+ "/" +:+ b.
Proof.
  intros Ha Hb. transitivity (Join ["/output"; a; b]); [reflexivity|].
  rewrite Join_entry2 by (assumption || discriminate). reflexivity.
Qed.

Lemma not_slash_ended x name :
  entry_name_ok name = true → has_suffix "/" (x +:+ "/" +:+ name) = false.
Proof.
  intros (Hne & _ & _ & Hns)%entry_name_ok_inv.
  apply (suffix_is_entry x name ""); [assumption | reflexivity | assumption].
Qed.

Lemma cleanPath_output a b :
  entry_name_ok a = true → entry_name_ok b = true →
  cleanPath ("/output/" +:+ a +:+ "/" +:+ b) = "/output/" +:+ a +:+ "/" +:+ b.
Proof.
  intros Ha Hb. unfold cleanPath. rewrite bool_decide_eq_false_2 by discriminate.
  change (rooted ("/output/" +:+ a +:+ "/" +:+ b)) with true. cbv iota zeta.
  rewrite Clean_output_path by assumption.
  assert (has_suffix "/" ("/output/" +:+ a +:+ "/" +:+ b) = false) as ->;
    [|reflexivity].
  rewrite <- str_app_assoc. now apply not_slash_ended.
Qed.

Lemma hex_not_rooted s x : str_all is_lower_hex s = true → s ≠ "" → rooted (s +:+ x) = false.
Proof.
  destruct s as [|c s]; [congruence|]. cbn [str_all]. intros [Hc _]%andb_true_iff _.
  rewrite str_app_cons. cbn [rooted]. apply negb_true_iff. now apply lower_hex_no_slash.
Qed.

(** X20. The paths of a response can be fetched from the server that
    sent them.  For a name in the array of a response with status 200
    (other than [index.html], and without a zero byte), the path
    [/output/<job-id>/<name>] is routed by the mux of [main] to the file
    server, not redirected and not to the handler; the file server is
    handed [<job-id>/<name>] and opens, under the output root, the path
    of that name in the job's output directory, where the listing found
    the entry.  This holds whatever the output root is, although the
    paths of the response always start with [/output]. *)
Theorem response_paths_resolve env cfg r f name :
  let σ := serve env cfg r f in
  let output := Join [outputDir cfg; job_id env] in
  let path := "/output/" +:+ job_id env +:+ "/" +:+ name in
  rw_status (rw σ) = Some StatusOK →
  name ∈ list_dir (fs σ) output →
  name ≠ "index.html" →
  str_all (λ c, negb (bool_decide (c = Ascii.zero))) name = true →
  (∃ pre elems werr, trace σ = pre ++ [EvWrite (JArray elems) werr] ∧ JString path ∈ elems)
  ∧ mux path = file_handler (job_id env +:+ "/" +:+ name)
  ∧ FileServer (outputDir cfg) (job_id env +:+ "/" +:+ name)
    = opened (output +:+ "/" +:+ name)
  ∧ is_Some (fs σ !! (output +:+ "/" +:+ name)).
Proof.
  intros σ output path Hst Hin Hidx Hnul. subst σ output path.
  fold (job_output env cfg) in *.
  pose proof Hin as [Hok Hsome]%list_dir_elem.
  pose proof Hok as (Hne & _ & _ & Hns)%entry_name_ok_inv.
  pose proof (job_id_ok env) as Hid.
  split_and!.
  - run_cases env cfg r f; rewrite Hrw in Hst; cbn in Hst; try discriminate;
      try (injection Hst as Hst; contradiction).
    eexists (job_trace env cfg evs ++ [_; _]), _, werr. split.
    + rewrite Htr, <- app_assoc. unfold marshal_strings. rewrite image_paths_literal.
      reflexivity.
    + apply list_elem_of_fmap. now exists name.
  - unfold mux. rewrite cleanPath_output by assumption.
    rewrite bool_decide_eq_false_2.
    2: { intros E. apply (f_equal String.length) in E. rewrite !str_app_length in E.
         cbn in E. lia. }
    rewrite bool_decide_eq_true_2 by reflexivity.
    rewrite bool_decide_eq_false_2.
    2: { intros E. apply (f_equal String.length) in E. rewrite !str_app_length in E.
         rewrite job_id_length in E. cbn in E. lia. }
    assert (strip_prefix "/output/" ("/output/" +:+ job_id env +:+ "/" +:+ name)
            = Some (job_id env +:+ "/" +:+ name)) as ->
      by (now apply strip_prefix_Some).
    reflexivity.
  - unfold FileServer.
    rewrite hex_not_rooted
      by (apply job_id_hex || (intros E; pose proof (job_id_length env) as Hl;
                               rewrite E in Hl; discriminate)).
    assert (has_suffix "/index.html" ("/" +:+ job_id env +:+ "/" +:+ name) = false) as ->.
    { rewrite <- str_app_assoc.
      apply (suffix_is_entry _ name "index.html"); [assumption | reflexivity | assumption]. }
    rewrite Clean_rooted_entries by assumption.
    unfold Dir_Open. rewrite entry_no_nul_path by (auto using hex_no_nul, job_id_hex).
    rewrite Clean_rooted_twice, Dir_Open_entry by assumption.
    unfold job_output. rewrite Join_entry by assumption.
    now rewrite !str_app_assoc.
  - exact Hsome.
Qed.

Lemma response_paths_resolve_witness :
  let σ := serve sample_env default_config two_images roots in
  rw_status (rw σ) = Some StatusOK
  ∧ "a.jpg" ∈ list_dir (fs σ) (Join [outputDir default_config; job_id sample_env])
  ∧ "a.jpg" ≠ "index.html"
  ∧ str_all (λ c, negb (bool_decide (c = Ascii.zero))) "a.jpg" = true
  ∧ mux ("/output/" +:+ job_id sample_env +:+ "/" +:+ "a.jpg")
    = file_handler (job_id sample_env +:+ "/" +:+ "a.jpg")
  ∧ FileServer (outputDir default_config) (job_id sample_env +:+ "/" +:+ "a.jpg")
    = opened (Join [outputDir default_config; job_id sample_env] +:+ "/" +:+ "a.jpg").
Proof.
  assert (rw_status (rw (serve sample_env default_config two_images roots)) = Some StatusOK)
    as Hst by reflexivity.
  assert ("a.jpg" ∈ list_dir (fs (serve sample_env default_config two_images roots))
                     (Join [outputDir default_config; job_id sample_env])) as Hin.
  { apply list_elem_of_lookup. exists 0%nat. reflexivity. }
  assert ("a.jpg" ≠ "index.html") as Hidx by discriminate.
  assert (str_all (λ c, negb (bool_decide (c = Ascii.zero))) "a.jpg" = true) as Hnul
    by reflexivity.
  split; [exact Hst|]. split; [exact Hin|]. split; [exact Hidx|]. split; [exact Hnul|].
  pose proof (response_paths_resolve sample_env default_config two_images roots "a.jpg"
                Hst Hin Hidx Hnul) as H.
  cbv zeta in H. split; [exact (proj1 (proj2 H)) | exact (proj1 (proj2 (proj2 H)))].
Defined.

(** ** Sample runs *)

Example Clean_samples :
  map Clean ["a//b/./c/.."; "/../a"; "../../a/.."; ""; "/"; "a/.."; "/input/"; "abc//def/../../x"]
  = ["a/b"; "/a"; "../.."; "."; "/"; "."; "/input"; "x"]
  ∧ Join ["/output"; "0a1b2c3d"; "x.jpg"] = "/output/0a1b2c3d/x.jpg"
  ∧ Join ["/input/"; "0a1b2c3d"] = "/input/0a1b2c3d"
  ∧ Join [""; "a"; ""; "b"] = "a/b"
  ∧ Join [""; ""] = "".
Proof. split_and!; vm_compute; reflexivity. Qed.

Example Valid_samples :
  map Valid ["{}"; " [1, 2 ] "; "-0.0e-1"; "[[[[]]]]"; (dq "'abc'"); "null"]
  = [true; true; true; true; true; true]
  ∧ map Valid ["01"; "1.e3"; (dq "{'a':1,}"); "[1,2"; (dq "'a\x'"); "nul"; "null x"; "  "; "-";
               (dq "{'a':{'b':[]}}x")]
    = [false; false; false; false; false; false; false; false; false; false].
Proof. split; vm_compute; reflexivity. Qed.

Example Decode_samples :
  Decode (dq "{'image_urls': ['http://a/b.jpg'], 'other': {'k': [1, true]}}")
  = ({| ImageURLs := ["http://a/b.jpg"] |}, None)
  ∧ Decode (dq "{'IMAGE_URLS': ['x', null]}") = ({| ImageURLs := ["x"; ""] |}, None)
  ∧ fst (Decode "{}") = {| ImageURLs := [] |} ∧ snd (Decode "{}") = None
  ∧ Decode "null" = ({| ImageURLs := [] |}, None)
  ∧ Decode (dq "{'image_urls': null}") = ({| ImageURLs := [] |}, None)
  ∧ Decode "" = ({| ImageURLs := [] |}, Some "EOF")
  ∧ is_error (snd (Decode (dq "{'image_urls': 'http://a/b.jpg'}"))) = true
  ∧ is_error (snd (Decode (dq "{'image_urls': [1]}"))) = true
  ∧ is_error (snd (Decode (dq "['http://a/b.jpg']"))) = true
  ∧ is_error (snd (Decode (dq "{'image_urls': ['a']"))) = true.
Proof. split_and!; vm_compute; reflexivity. Qed.

Example generateID_samples :
  EncodeToString [Byte.xde; Byte.xad; Byte.xbe; Byte.xef] = "deadbeef"
  ∧ job_id sample_env = "abababab"
  ∧ fst (generateID sample_env 3 (start ∅)) = "aba"
  ∧ jpg_name 0 = "0.jpg" ∧ jpg_name 12 = "12.jpg".
Proof. split_and!; vm_compute; reflexivity. Qed.

Example sample_run :
  let σ := serve sample_env default_config two_images roots in
  trace σ =
    [EvRand 4 [Byte.xab; Byte.xab; Byte.xab; Byte.xab];
     EvMkdir "/input/abababab" None;
     EvGet "http://a/1.png"
       (inl {| StatusCode := 200; Body := "image of http://a/1.png"; BodyErr := None |});
     EvCreate "/input/abababab/0.jpg" None;
     EvCopy "/input/abababab/0.jpg" "image of http://a/1.png" None;
     EvGet "http://b/2.png"
       (inl {| StatusCode := 200; Body := "image of http://b/2.png"; BodyErr := None |});
     EvCreate "/input/abababab/1.jpg" None;
     EvCopy "/input/abababab/1.jpg" "image of http://b/2.png" None;
     EvPost "http://darkflow:8000" "application/json"
       (JObject [("input_dir", JString "/input/abababab");
                 ("output_dir", JString "/output/abababab")])
       (inl 200);
     EvReadDir "/output/abababab" (inl ["a.jpg"; "b.jpg"]);
     EvWrite (JArray [JString "/output/abababab/a.jpg"; JString "/output/abababab/b.jpg"])
       None]
  ∧ rw_status (rw σ) = Some 200
  ∧ rw_body (rw σ)
    = [JArray [JString "/output/abababab/a.jpg"; JString "/output/abababab/b.jpg"]]
  ∧ rw_sent (rw σ) = cors_header
  ∧ rw_header (rw σ) !! "Content-Type" = Some "application/json"
  ∧ rw_sent (rw σ) !! "Content-Type" = None.
Proof. cbv zeta. split_and!; vm_compute; reflexivity. Qed.

Example options_run :
  let σ := serve sample_env default_config {| Method := "OPTIONS"; ReqBody := "" |} roots in
  trace σ = [] ∧ rw_status (rw σ) = None ∧ status_sent σ = 200
  ∧ rw_body (rw σ) = [] ∧ rw_header (rw σ) = cors_header ∧ fs σ = roots.
Proof. cbv zeta. split_and!; vm_compute; reflexivity. Qed.

(** One URL in, two paths out: the response follows the listing of the
    output directory, not the request. *)
Example one_image_two_results :
  let r := post_request (dq "{'image_urls': ['http://a/1.png']}") in
  let σ := serve sample_env default_config r roots in
  urls_of r = ["http://a/1.png"]
  ∧ rw_body (rw σ)
    = [JArray [JString "/output/abababab/a.jpg"; JString "/output/abababab/b.jpg"]].
Proof. cbv zeta. split; vm_compute; reflexivity. Qed.

(** The second URL unreachable: the first file stays, nothing is posted. *)
Example second_unreachable_run :
  let σ := serve env_second_unreachable default_config two_images roots in
  trace σ =
    [EvRand 4 [Byte.xab; Byte.xab; Byte.xab; Byte.xab];
     EvMkdir "/input/abababab" None;
     EvGet "http://a/1.png"
       (inl {| StatusCode := 200; Body := "image of http://a/1.png"; BodyErr := None |});
     EvCreate "/input/abababab/0.jpg" None;
     EvCopy "/input/abababab/0.jpg" "image of http://a/1.png" None;
     EvGet "http://b/2.png" (inr "dial tcp: no route to host");
     EvWrite
       (JObject [("reason", JString "could not wget image: dial tcp: no route to host")])
       None]
  ∧ rw_status (rw σ) = Some 500
  ∧ fs σ !! "/input/abababab/0.jpg" = Some (File "image of http://a/1.png")
  ∧ fs σ !! "/input/abababab/1.jpg" = None.
Proof. cbv zeta. split_and!; vm_compute; reflexivity. Qed.

(** ** More sample runs *)

Example mux_samples :
  map mux ["/recognize"; "/recognize/"; "/recognize/x"; "/"; "/output"; "/output/";
           "/output/ab/x.jpg"; "/output/ab/../../recognize"; "//recognize"; ""]
  = [recognize_handler; NotFoundHandler; NotFoundHandler; NotFoundHandler;
     RedirectHandler "/output/"; file_handler ""; file_handler "ab/x.jpg";
     RedirectHandler "/recognize"; RedirectHandler "/recognize"; RedirectHandler "/"].
Proof. vm_compute. reflexivity. Qed.

Example FileServer_samples :
  FileServer "/output" "ab/x.jpg" = opened "/output/ab/x.jpg"
  ∧ FileServer "/srv/out/" "ab/x.jpg" = opened "/srv/out/ab/x.jpg"
  ∧ FileServer "" "ab/x.jpg" = opened "ab/x.jpg"
  ∧ FileServer "/output" "ab/../../../etc/passwd" = opened "/output/etc/passwd"
  ∧ FileServer "/output" "ab/index.html" = index_redirect
  ∧ FileServer "/output" "" = opened "/output".
Proof. split_and!; vm_compute; reflexivity. Qed.

Example DecodeString_samples :
  DecodeString "deadbeef" = Some [Byte.xde; Byte.xad; Byte.xbe; Byte.xef]
  ∧ DecodeString "DEADBEEF" = Some [Byte.xde; Byte.xad; Byte.xbe; Byte.xef]
  ∧ DecodeString "abc" = None
  ∧ DecodeString "zz" = None.
Proof. split_and!; vm_compute; reflexivity. Qed.

(** An odd length drops the last digit: two buffers that differ in the
    low half of the last byte give the same identifier. *)
Example odd_length_drops_a_digit :
  str_take 3 (EncodeToString [Byte.xab; Byte.xc0])
  = str_take 3 (EncodeToString [Byte.xab; Byte.xcf]).
Proof. reflexivity. Qed.

Example existing_directory_run :
  let σ := serve sample_env default_config two_images roots_with_job in
  trace σ =
    [EvRand 4 [Byte.xab; Byte.xab; Byte.xab; Byte.xab];
     EvMkdir "/input/abababab" (Some "mkdir /input/abababab: file exists");
     EvWrite (JObject [("reason",
                        JString "could not create input dir: mkdir /input/abababab: file exists")])
       None]
  ∧ rw_status (rw σ) = Some 500.
Proof. split; vm_compute; reflexivity. Qed.

Example idle_service_run :
  let σ := serve env_idle_service default_config two_images roots in
  last (trace σ)
  = Some (EvWrite (JObject [("reason",
                             JString "could not read output dir: open /output/abababab: no such directory")])
            None)
  ∧ rw_status (rw σ) = Some 500.
Proof. split; vm_compute; reflexivity. Qed.

Example disk_full_run :
  let σ := serve env_disk_full default_config two_images roots in
  fs σ !! "/input/abababab/0.jpg" = Some (File "image")
  ∧ fs σ !! "/input/abababab" = Some Dir
  ∧ gets (trace σ) = ["http://a/1.png"]
  ∧ last (trace σ)
    = Some (EvWrite (JObject [("reason", JString "write: no space left on device")]) None).
Proof. cbv zeta. split_and!; vm_compute; reflexivity. Qed.

Example body_breaks_run :
  let σ := serve env_body_breaks default_config two_images roots in
  fs σ !! "/input/abababab/0.jpg" = Some (File "ima")
  ∧ last (trace σ) = Some (EvWrite (JObject [("reason", JString "unexpected EOF")]) None)
  ∧ rw_status (rw σ) = Some 500.
Proof. cbv zeta. split_and!; vm_compute; reflexivity. Qed.

Example preflight_run :
  let σ := serve sample_env default_config preflight roots in
  trace σ = [] ∧ status_sent σ = 200 ∧ headers_sent σ = cors_header.
Proof. cbv zeta. split_and!; vm_compute; reflexivity. Qed.
